(** * Alpaca dataset classifier: a shallow embedding of [classifier.py]

    The development follows the source top to bottom:

    - Python strings ([str]) and the five string methods the label
      normalisation uses ([strip], [lower], [replace], [split], [in]);
    - [CATEGORIES] and the normalisation of a raw model response
      (lines 62-67 of [classify_instruction], repeated verbatim at lines
      116-121 of [classify_alpaca_dataset]);
    - the retry loop, the batch loop with its checkpoints, the final dump
      and the per-category files of [classify_alpaca_dataset];
    - the start-up probe of the [__main__] block.

    What the model leaves out: console output ([print], [tqdm]) and the
    [Counter] that only feeds it, the sampling temperature of the request
    (a float constant), and faults of the local file system (every
    [open(..., 'w')] / [json.dump] is taken to succeed).  A file is
    recorded with the list of records handed to [json.dump], not with its
    JSON text. *)

From Stdlib Require Import String Ascii DecimalString.
From Stdlib Require Import List Bool Arith NArith Lia.
From Stdlib Require DecimalNat.
Import ListNotations.

Set Implicit Arguments.

(* Unary [mod] and [/] by 500 are kept folded during simplification. *)
#[global] Arguments Nat.modulo : simpl never.
#[global] Arguments Nat.div : simpl never.

(* ================================================================== *)
(** * Python strings *)
(* ================================================================== *)

(** A Python [str] is a sequence of Unicode code points. *)
Definition str : Type := list N.

(** Source literals are ASCII; [lit] reads one as a [str]. *)
Definition lit (s : string) : str := map N_of_ascii (list_ascii_of_string s).

Definition str_eqb (a b : str) : bool :=
  if list_eq_dec N.eq_dec a b then true else false.

(** [x in xs] for a list of strings. *)
Definition py_in (x : str) (xs : list str) : bool := existsb (str_eqb x) xs.

(** The interpreter's Unicode tables are not part of the repository.
    Their ASCII part is fixed and written out below; what they say about
    code points from 128 upwards is taken as given:
    - [isspace_hi c]: whether [c] counts as whitespace for [strip] and
      [split];
    - [lower_hi s i]: the lowercase expansion of the code point at index
      [i] of [s] (an expansion may have several code points, and that of
      capital sigma depends on the neighbours, hence the whole string). *)
Class UnicodeTables : Type := {
  isspace_hi : N -> bool;
  lower_hi : str -> nat -> str
}.

(** A runtime in which no code point from 128 upwards is whitespace or
    cased.  ASCII-only strings behave the same under every runtime. *)
Definition plain_tables : UnicodeTables :=
  {| isspace_hi := fun _ => false;
     lower_hi := fun s i => match nth_error s i with
                            | Some c => [c]
                            | None => []
                            end |}.

Section Strings.
Context {U : UnicodeTables}.

(** ASCII whitespace of [str.isspace]: TAB, LF, VT, FF, CR, the four
    separators FS, GS, RS, US, and the space. *)
Definition isspace (c : N) : bool :=
  if (c <? 128)%N
  then ((9 <=? c) && (c <=? 13) || (28 <=? c) && (c <=? 32))%N
  else isspace_hi c.

Fixpoint lstrip (s : str) : str :=
  match s with
  | c :: r => if isspace c then lstrip r else s
  | [] => []
  end.

Definition rstrip (s : str) : str := rev (lstrip (rev s)).

(** [s.strip()] *)
Definition py_strip (s : str) : str := rstrip (lstrip s).

Definition ascii_lower (c : N) : N :=
  if ((65 <=? c) && (c <=? 90))%N then (c + 32)%N else c.

Fixpoint lower_from (whole : str) (i : nat) (s : str) : str :=
  match s with
  | [] => []
  | c :: r =>
      (if (c <? 128)%N then [ascii_lower c] else lower_hi whole i)
        ++ lower_from whole (S i) r
  end.

(** [s.lower()] *)
Definition py_lower (s : str) : str := lower_from s 0 s.

Fixpoint startswith (pre s : str) : bool :=
  match pre, s with
  | [], _ => true
  | p :: pre', c :: s' => (p =? c)%N && startswith pre' s'
  | _ :: _, [] => false
  end.

(** The scan of [s.replace(old, new)] for a non-empty [old]: left to
    right, at each position either an occurrence of [old] starts (emit
    [new], step over the occurrence) or the code point is copied.
    [skip] counts the code points of the current occurrence still to be
    stepped over. *)
Fixpoint replace_scan (old new : str) (skip : nat) (s : str) : str :=
  match s with
  | [] => []
  | c :: r =>
      match skip with
      | S k => replace_scan old new k r
      | O =>
          if startswith old s
          then new ++ replace_scan old new (length old - 1) r
          else c :: replace_scan old new 0 r
      end
  end.

(** [s.replace(old, new)], [old] non-empty. *)
Definition py_replace (old new s : str) : str := replace_scan old new 0 s.

(** [s.split()]: the maximal runs of non-whitespace, in order.  [tok]
    holds the current run, last code point first. *)
Fixpoint split_from (tok : str) (s : str) : list str :=
  match s with
  | [] => match tok with [] => [] | _ => [rev tok] end
  | c :: r =>
      if isspace c
      then match tok with
           | [] => split_from [] r
           | _ => rev tok :: split_from [] r
           end
      else split_from (c :: tok) r
  end.

Definition py_split (s : str) : list str := split_from [] s.

(** The first whitespace-delimited token, read off directly: skip the
    leading whitespace, then take code points up to the next
    whitespace. *)
Fixpoint take_token (s : str) : str :=
  match s with
  | [] => []
  | c :: r => if isspace c then [] else c :: take_token r
  end.

Definition first_token (s : str) : option str :=
  match take_token (lstrip s) with
  | [] => None
  | tok => Some tok
  end.

End Strings.

(* ================================================================== *)
(** * Categories and the normalisation of a response *)
(* ================================================================== *)

Definition CATEGORIES : list str :=
  map lit
    [ "history"; "science"; "mathematics"; "literature"; "technology";
      "business"; "health_medicine"; "geography"; "arts"; "sports"; "law";
      "psychology"; "philosophy"; "education"; "cooking_food"; "travel";
      "entertainment"; "language"; "general_knowledge"; "creative_writing";
      "other" ]%string.

(** The fallback label, the literal ["other"] of the source. *)
Definition other : str := lit "other".

Section Normalise.
Context {U : UnicodeTables}.

(** Lines 62-69 (and 116-121), for a response field that is a string:
<<
    category = response.json()['response'].strip().lower()
    category = category.replace("category:", "").strip()
    category = category.split()[0] if category.split() else "other"
    if category not in CATEGORIES: category = "other"
>> *)
Definition normalize_response (raw : str) : str :=
  let category := py_lower (py_strip raw) in
  let category := py_strip (py_replace (lit "category:") [] category) in
  let category := match py_split category with
                  | tok :: _ => tok
                  | [] => other
                  end in
  if negb (py_in category CATEGORIES) then other else category.

(** The normalisation as the specification words it, for comparison
    with [normalize_response]: lowercase and trim; strip the marker if
    the string starts with it; take the first whitespace-delimited
    token of what remains; fall back when there is no token or the
    token is not a category. *)
Definition strip_leading_marker (s : str) : str :=
  if startswith (lit "category:") s
  then skipn (length (lit "category:")) s
  else s.

Definition leading_marker_normalize (raw : str) : str :=
  let s := py_strip (py_lower raw) in
  match first_token (strip_leading_marker s) with
  | Some tok => if py_in tok CATEGORIES then tok else other
  | None => other
  end.

End Normalise.

(* ================================================================== *)
(** * Records, requests and the environment *)
(* ================================================================== *)

(** A row of [dataset['train']]. *)
Record Row : Type := {
  row_instruction : str;
  row_input : str;
  row_output : str
}.

(** An element of [results]: the dict with keys ['instruction'],
    ['input'], ['output'], ['category'].  [category] starts as [None] in
    the source, so the field can hold [None]. *)
Record Item : Type := {
  instruction : str;
  input : str;
  output : str;
  category : option str
}.

(** The arguments of a [requests.post] call. *)
Record Request : Type := {
  url : str;
  model : str;
  prompt : str;
  stream : bool;
  num_predict : N;
  timeout : N
}.

(** What one pass through the [try] body meets.  [Replied raw]: the call
    returned, its body parsed and [response.json()['response']] is the
    string [raw].  [Raised]: an [Exception] was raised on the way (transport
    fault, timeout, no JSON, no ['response'] member, or a member that is
    not a string). *)
Inductive Outcome : Type :=
  | Replied (raw : str)
  | Raised.

(** The model endpoint: how it answers a [post], and whether the [get]
    of the start-up probe returns ([true]) or raises ([false]).  Both may
    depend on, and change, the state of the world. *)
Class Endpoint (World : Type) : Type := {
  http_post : Request -> World -> Outcome * World;
  http_get : str -> World -> bool * World
}.

(** What the program does to its environment, in order. *)
Inductive Event : Type :=
  | Get (u : str)
  | Post (r : Request)
  | Dump (file : str) (data : list Item).

Definition generate_url : str := lit "http://localhost:11434/api/generate".
Definition tags_url : str := lit "http://localhost:11434/api/tags".

(** [sep.join(xs)] *)
Fixpoint py_join (sep : str) (xs : list str) : str :=
  match xs with
  | [] => []
  | [x] => x
  | x :: r => x ++ sep ++ py_join sep r
  end.

(** [str(n)] for a non-negative integer. *)
Definition py_str_of_nat (n : nat) : str :=
  lit (NilEmpty.string_of_uint (Nat.to_uint n)).

Definition newline : str := [10%N].

Definition checkpoint_file (n : nat) : str :=
  lit "alpaca_categorized_checkpoint_" ++ py_str_of_nat n ++ lit ".json".

Definition final_file : str := lit "alpaca_categorized_final.json".

Definition category_file (cat : str) : str :=
  lit "alpaca_" ++ cat ++ lit ".json".

(** Truth value of a string: non-empty. *)
Definition truthy (s : str) : bool :=
  match s with [] => false | _ => true end.

(* ================================================================== *)
(** * [classify_instruction] *)
(* ================================================================== *)

Section ClassifyInstruction.
Context {U : UnicodeTables} {World : Type} {E : Endpoint World}.

Definition instruction_prompt (instruction input_text : str) : str :=
  lit "Classify the following instruction into exactly ONE subject category from this list:"
  ++ newline ++ py_join (lit ", ") CATEGORIES ++ newline
  ++ newline ++ lit "Instruction: " ++ instruction ++ newline
  ++ (if truthy input_text then lit "Input: " ++ input_text else [])
  ++ newline ++ newline
  ++ lit "Respond with ONLY the category name, nothing else." ++ newline
  ++ lit "Category:".

Definition classify_instruction (instruction input_text model : str)
    (w : World) : str * World :=
  let req := {| url := generate_url; model := model;
                prompt := instruction_prompt instruction input_text;
                stream := false; num_predict := 10; timeout := 30 |} in
  let '(o, w') := http_post req w in
  match o with
  | Replied raw => (normalize_response raw, w')
  | Raised => (other, w')
  end.

End ClassifyInstruction.

(* ================================================================== *)
(** * [classify_alpaca_dataset] *)
(* ================================================================== *)

(** The dict appended to [results] (lines 133-138). *)
Definition result_item (example : Row) (category : option str) : Item :=
  {| instruction := row_instruction example;
     input := row_input example;
     output := row_output example;
     category := category |}.

(** The locals of [classify_alpaca_dataset] that outlive an iteration,
    with the world and the log of what was done to it. *)
Record State (World : Type) : Type := {
  world : World;
  events : list Event;
  results : list Item;
  failed_count : nat
}.

(** [categorized_data]: a dict in insertion order. *)
Definition Dict : Type := list (str * list Item).

(** [d[key].append(item)]; [None] is the [KeyError] of a missing key. *)
Fixpoint dict_append (d : Dict) (key : option str) (item : Item) : option Dict :=
  match d with
  | [] => None
  | (k, items) :: d' =>
      if match key with Some c => str_eqb c k | None => false end
      then Some ((k, items ++ [item]) :: d')
      else option_map (cons (k, items)) (dict_append d' key item)
  end.

(** No string occurs twice in [xs]. *)
Fixpoint distinct (xs : list str) : bool :=
  match xs with
  | [] => true
  | x :: r => negb (py_in x r) && distinct r
  end.

(** The initial [{cat: [] for cat in CATEGORIES}]. *)
Definition empty_partition : Dict := map (fun cat => (cat, [])) CATEGORIES.

(** [bool(items)] for a list. *)
Definition nonempty (items : list Item) : bool :=
  match items with [] => false | _ => true end.

(** The dataset row an item was built from. *)
Definition row_of (item : Item) : Row :=
  {| row_instruction := instruction item;
     row_input := input item;
     row_output := output item |}.

(** [item['category'] == cat] *)
Definition has_category (cat : str) (item : Item) : bool :=
  match category item with
  | Some c => str_eqb c cat
  | None => false
  end.

(** The items labelled [cat], in the order of [items]. *)
Definition items_of (cat : str) (items : list Item) : list Item :=
  filter (has_category cat) items.

(** An item whose label is a member of [CATEGORIES]. *)
Definition labelled (item : Item) : Prop :=
  exists c, category item = Some c /\ In c CATEGORIES.

(** The files written, in order, each with the records dumped to it. *)
Definition dumps (evs : list Event) : list (str * list Item) :=
  flat_map (fun e => match e with Dump f d => [(f, d)] | _ => [] end) evs.

(** The requests sent, in order. *)
Definition posts (evs : list Event) : list Request :=
  flat_map (fun e => match e with Post r => [r] | _ => [] end) evs.

(** How the call ends. *)
Inductive Completion : Type :=
  | Returned (results : list Item)
  | KeyError.

Section ClassifyAlpacaDataset.
Context {U : UnicodeTables} {World : Type} {E : Endpoint World}.

Definition max_retries : nat := 3.

Definition dataset_prompt (example : Row) : str :=
  lit "Classify into ONE category: " ++ py_join (lit ", ") CATEGORIES
  ++ newline ++ newline
  ++ lit "Instruction: " ++ row_instruction example ++ newline
  ++ (if truthy (row_input example)
      then lit "Input: " ++ row_input example else [])
  ++ newline ++ newline
  ++ lit "Category:".

Definition timeout_val (attempt : nat) : N := (60 * (N.of_nat attempt + 1))%N.

(** The request of lines 97-114 for a given [attempt]. *)
Definition dataset_request (example : Row) (attempt : nat) : Request :=
  {| url := generate_url; model := lit "qwen2.5:3b";
     prompt := dataset_prompt example;
     stream := false; num_predict := 10;
     timeout := timeout_val attempt |}.

(** [for attempt in range(max_retries): ...] (lines 93-131), over the
    attempts still to run.  A reply ends the loop ([break]); an
    exception goes on to the next attempt, after the bookkeeping of the
    last one. *)
Fixpoint retry_loop (example : Row) (attempts : list nat)
    (category : option str) (st : State World) : option str * State World :=
  match attempts with
  | [] => (category, st)
  | attempt :: rest =>
      let req := dataset_request example attempt in
      let '(o, w') := http_post req (world st) in
      let st' := {| world := w'; events := events st ++ [Post req];
                    results := results st;
                    failed_count := failed_count st |} in
      match o with
      | Replied raw => (Some (normalize_response raw), st')
      | Raised =>
          if attempt =? max_retries - 1
          then retry_loop example rest (Some other)
                 {| world := w'; events := events st';
                    results := results st';
                    failed_count := failed_count st' + 1 |}
          else retry_loop example rest category st'
      end
  end.

(** Lines 90-131 for one [example]: [max_retries = 3],
    [category = None], then the loop over [range(max_retries)]. *)
Definition retry (example : Row) (st : State World) : option str * State World :=
  retry_loop example (seq 0 max_retries) None st.

(** One iteration of [for i, example in enumerate(dataset['train'])]
    (lines 88-147). *)
Definition iteration (i : nat) (example : Row) (st : State World) : State World :=
  let '(category, st1) := retry example st in
  let results' := results st1 ++ [result_item example category] in
  {| world := world st1;
     events := if (i + 1) mod 500 =? 0
               then events st1 ++ [Dump (checkpoint_file (i + 1)) results']
               else events st1;
     results := results';
     failed_count := failed_count st1 |}.

Fixpoint batch_loop (i : nat) (examples : list Row) (st : State World) : State World :=
  match examples with
  | [] => st
  | example :: rest => batch_loop (S i) rest (iteration i example st)
  end.

(** [for item in results: categorized_data[item['category']].append(item)] *)
Fixpoint group_items (items : list Item) (d : Dict) : option Dict :=
  match items with
  | [] => Some d
  | item :: rest =>
      match dict_append d (category item) item with
      | Some d' => group_items rest d'
      | None => None
      end
  end.

(** [for category, items in categorized_data.items(): if items: dump] *)
Fixpoint category_dumps (d : Dict) : list Event :=
  match d with
  | [] => []
  | (cat, items) :: d' =>
      match items with
      | [] => category_dumps d'
      | _ => Dump (category_file cat) items :: category_dumps d'
      end
  end.

(** What the endpoint answers to the requests of [attempts] for
    [example], made one after the other from world [w]: a description
    of the environment, independent of the loop. *)
Fixpoint answers (example : Row) (attempts : list nat) (w : World) : list Outcome :=
  match attempts with
  | [] => []
  | attempt :: rest =>
      let '(o, w') := http_post (dataset_request example attempt) w in
      o :: answers example rest w'
  end.

(** The endpoint fails the first [k - 1] attempts for [example] and
    answers the [k]-th with [raw]. *)
Definition succeeds_on (example : Row) (w : World) (k : nat) (raw : str) : Prop :=
  answers example (seq 0 k) w = repeat Raised (k - 1) ++ [Replied raw].

(** The endpoint fails all three attempts for [example]. *)
Definition fails_throughout (example : Row) (w : World) : Prop :=
  answers example (seq 0 max_retries) w = repeat Raised max_retries.

(** The requests of the first [n] attempts for [example]. *)
Definition attempts_trace (example : Row) (n : nat) : list Event :=
  map (fun attempt => Post (dataset_request example attempt)) (seq 0 n).

(** The checkpoint due once [m] records are done, [rs] being a list
    of records that starts with those [m]. *)
Definition checkpoint_after (m : nat) (rs : list Item) : list Event :=
  if m mod 500 =? 0 then [Dump (checkpoint_file m) (firstn m rs)] else [].

(** The shape of a batch trace: record by record from index [i], the
    requests of its [n] attempts, then the checkpoint if one is due. *)
Fixpoint batch_trace (i : nat) (examples : list Row) (ns : list nat)
    (rs : list Item) : list Event :=
  match examples, ns with
  | example :: examples', n :: ns' =>
      attempts_trace example n ++ checkpoint_after (i + 1) rs
        ++ batch_trace (S i) examples' ns' rs
  | _, _ => []
  end.

Definition initial_state (w : World) : State World :=
  {| world := w; events := []; results := []; failed_count := 0 |}.

(** [classify_alpaca_dataset()], [dataset] being what [load_dataset]
    gave as [dataset['train']]. *)
Definition classify_alpaca_dataset (dataset : list Row) (w : World)
    : Completion * State World :=
  let st := batch_loop 0 dataset (initial_state w) in
  let st := {| world := world st;
               events := events st ++ [Dump final_file (results st)];
               results := results st;
               failed_count := failed_count st |} in
  let categorized_data := empty_partition in
  match group_items (results st) categorized_data with
  | None => (KeyError, st)
  | Some categorized_data =>
      (Returned (results st),
       {| world := world st;
          events := events st ++ category_dumps categorized_data;
          results := results st;
          failed_count := failed_count st |})
  end.

End ClassifyAlpacaDataset.

(* ================================================================== *)
(** * The [__main__] block *)
(* ================================================================== *)

(** Where the block stands after line 299: it has left through
    [exit(code)], or [classify_alpaca_dataset] has run and the reporting
    passes (not modelled) come next. *)
Inductive MainStatus : Type :=
  | Exited (code : N)
  | Classified (c : Completion).

Section Main.
Context {U : UnicodeTables} {World : Type} {E : Endpoint World}.

Definition main (dataset : list Row) (w : World) : MainStatus * State World :=
  let '(up, w1) := http_get tags_url w in
  if up
  then
    let '(c, st) := classify_alpaca_dataset dataset w1 in
    (Classified c,
     {| world := world st; events := Get tags_url :: events st;
        results := results st; failed_count := failed_count st |})
  else
    (Exited 1,
     {| world := w1; events := [Get tags_url]; results := [];
        failed_count := 0 |}).

End Main.

(** A scripted world for examples: the probe answers [reachable], and
    each [post] consumes the next scripted outcome (raising once the
    script is used up). *)
Record Script : Type := {
  reachable : bool;
  replies : list Outcome
}.

Definition scripted : Endpoint Script :=
  {| http_post := fun _ w =>
       match replies w with
       | o :: r => (o, {| reachable := reachable w; replies := r |})
       | [] => (Raised, w)
       end;
     http_get := fun _ w => (reachable w, w) |}.

(** Two endpoints without state: one answers every request with [raw],
    the other fails every request. *)
Definition steady (raw : str) : Endpoint unit :=
  {| http_post := fun _ w => (Replied raw, w);
     http_get := fun _ w => (true, w) |}.

Definition dead : Endpoint unit :=
  {| http_post := fun _ w => (Raised, w);
     http_get := fun _ w => (true, w) |}.

Definition demo_world (outcomes : list Outcome) : Script :=
  {| reachable := true; replies := outcomes |}.

Definition demo_row (n : nat) : Row :=
  {| row_instruction := lit "Name the capital of France" ++ py_str_of_nat n;
     row_input := []; row_output := lit "Paris" |}.

(* ================================================================== *)
(** * Further parts of the program *)
(* ================================================================== *)

(** ** Shapes of responses *)

Definition is_ascii (c : N) : bool := (c <? 128)%N.

(** [clash pre s]: [pre] and [s] differ at a position both have, so [pre]
    does not start [s ++ t], whatever [t] is. *)
Fixpoint clash (pre s : str) : bool :=
  match pre, s with
  | p :: pre', c :: s' => negb (p =? c)%N || clash pre' s'
  | _, _ => false
  end.

(** [pre] clashes with every non-empty suffix of [s]. *)
Fixpoint clashes_throughout (pre s : str) : bool :=
  match s with
  | [] => true
  | _ :: s' => clash pre s && clashes_throughout pre s'
  end.

Section ResponseShapes.
Context {U : UnicodeTables}.

(** What may stand before the category name in a response: nothing, or
    the marker in any letter case followed by ASCII whitespace. *)
Definition marker_lead (lead : str) : Prop :=
  lead = [] \/
  exists M ws,
    lead = M ++ ws /\
    forallb is_ascii M = true /\ map ascii_lower M = lit "category:" /\
    forallb is_ascii ws = true /\ forallb isspace ws = true.

(** What may stand after it: nothing, or text that starts with an ASCII
    whitespace. *)
Definition word_break (tail : str) : Prop :=
  tail = [] \/
  exists w t, tail = w :: t /\ is_ascii w = true /\ isspace w = true.

End ResponseShapes.

(** ** Two regimes of the endpoint *)

Section EndpointRegimeDefs.
Context {World : Type} {E : Endpoint World}.

(** The endpoint answers every request. *)
Definition always_replies : Prop :=
  forall (r : Request) (w : World), exists raw, fst (http_post r w) = Replied raw.

(** The endpoint fails every request. *)
Definition always_raises : Prop :=
  forall (r : Request) (w : World), fst (http_post r w) = Raised.

End EndpointRegimeDefs.

(** ** [category_counts] (lines 82 and 140)

    A [Counter]: a dict from labels to counts, in insertion order, in
    which a missing key counts 0. *)
Definition Counter : Type := list (option str * nat).

(** Equality of two values of ['category']. *)
Definition label_eqb (a b : option str) : bool :=
  match a, b with
  | Some x, Some y => str_eqb x y
  | None, None => true
  | _, _ => false
  end.

(** [counts[key] += 1] *)
Fixpoint counter_incr (counts : Counter) (key : option str) : Counter :=
  match counts with
  | [] => [(key, 1)]
  | (k, n) :: r =>
      if label_eqb key k then (k, n + 1) :: r else (k, n) :: counter_incr r key
  end.

(** [counts[key]] *)
Fixpoint counter_get (counts : Counter) (key : option str) : nat :=
  match counts with
  | [] => 0
  | (k, n) :: r => if label_eqb key k then n else counter_get r key
  end.

(** [sum(counts.values())] *)
Definition counter_total (counts : Counter) : nat := list_sum (map snd counts).

Section CategoryCounts.
Context {U : UnicodeTables} {World : Type} {E : Endpoint World}.

(** The loop of lines 88-147 with [category_counts] carried along: each
    iteration counts the label it has just appended (line 140). *)
Fixpoint counted_loop (i : nat) (examples : list Row) (st : State World)
    (category_counts : Counter) : State World * Counter :=
  match examples with
  | [] => (st, category_counts)
  | example :: rest =>
      counted_loop (S i) rest (iteration i example st)
        (counter_incr category_counts (fst (retry example st)))
  end.

End CategoryCounts.

(** ** [by_category] (lines 177-182, 218-223 and 254-259)

    The dict the three reporting functions build from the records read
    back from the final file; ['category'] may hold any label there. *)
Definition Buckets : Type := list (option str * list Item).

(** [cat in by_category] *)
Definition bucket_mem (d : Buckets) (cat : option str) : bool :=
  existsb (fun kl => label_eqb cat (fst kl)) d.

(** [by_category[cat]]; [None] when the key is missing. *)
Fixpoint bucket_get (d : Buckets) (cat : option str) : option (list Item) :=
  match d with
  | [] => None
  | (k, l) :: r => if label_eqb cat k then Some l else bucket_get r cat
  end.

(** [by_category[cat].append(item)] for a key that is present. *)
Fixpoint bucket_append (d : Buckets) (cat : option str) (item : Item) : Buckets :=
  match d with
  | [] => []
  | (k, l) :: r =>
      if label_eqb cat k then (k, l ++ [item]) :: r
      else (k, l) :: bucket_append r cat item
  end.

(** The body of [for item in data]:
<<
      cat = item['category']
      if cat not in by_category: by_category[cat] = []
      by_category[cat].append(item)
>> *)
Definition by_category_step (by_category : Buckets) (item : Item) : Buckets :=
  let cat := category item in
  let by_category :=
    if negb (bucket_mem by_category cat)
    then by_category ++ [(cat, [])] else by_category in
  bucket_append by_category cat item.

Definition group_by_category (data : list Item) : Buckets :=
  fold_left by_category_step data [].

(** The number of records held in all the buckets. *)
Definition buckets_size (d : Buckets) : nat :=
  list_sum (map (fun kl => length (snd kl)) d).

(** The items of [data] whose ['category'] is [key], in order. *)
Definition with_label (key : option str) (data : list Item) : list Item :=
  filter (fun item => label_eqb key (category item)) data.

(** ** [check_quality] (lines 200-228)

    What the function computes before it prints: it raises on the
    division by [len(data)], or it has the count of ['other'] items and
    the list of empty categories.  The percentage itself and the warning
    drawn from it are floats and are left out. *)
Inductive QualityChecks : Type :=
  | ZeroDivisionError
  | Checked (other_count : nat) (empty_cats : list str).

Definition check_quality (data : list Item) : QualityChecks :=
  let other_count := length (filter (has_category other) data) in
  match length data with
  | 0 => ZeroDivisionError
  | _ =>
      let by_category := group_by_category data in
      let empty_cats :=
        filter (fun cat =>
                  negb (bucket_mem by_category (Some cat))
                  || match bucket_get by_category (Some cat) with
                     | Some l => length l =? 0
                     | None => false
                     end) CATEGORIES in
      Checked other_count empty_cats
  end.

(* ================================================================== *)
(** * Strings: lemmas *)
(* ================================================================== *)

Lemma str_eqb_eq (a b : str) : str_eqb a b = true <-> a = b.
Proof.
  unfold str_eqb. destruct (list_eq_dec N.eq_dec a b); split; congruence.
Qed.

Lemma py_in_In (x : str) (xs : list str) : py_in x xs = true <-> In x xs.
Proof.
  unfold py_in. rewrite existsb_exists. split.
  - intros [y [Hy Heq]]. apply str_eqb_eq in Heq. now subst.
  - intros H. exists x. split; [assumption | now apply str_eqb_eq].
Qed.

Lemma py_in_not_In (x : str) (xs : list str) : py_in x xs = false <-> ~ In x xs.
Proof.
  rewrite <- py_in_In. destruct (py_in x xs); split; congruence.
Qed.

Lemma other_in_CATEGORIES : In other CATEGORIES.
Proof. apply py_in_In. vm_compute. reflexivity. Qed.

(** The skipping scan is the usual recursion of a leftmost,
    non-overlapping replacement. *)
Lemma replace_scan_skip (old new : str) (k : nat) (s : str) :
  replace_scan old new k s = replace_scan old new 0 (skipn k s).
Proof.
  revert k. induction s as [|c r IH]; intros [|k]; simpl; try reflexivity.
  apply IH.
Qed.

Lemma py_replace_match (old new s : str) :
  old <> [] -> startswith old s = true ->
  py_replace old new s = new ++ py_replace old new (skipn (length old) s).
Proof.
  unfold py_replace. intros Hold Hs.
  destruct s as [|c r].
  - destruct old; [congruence | discriminate].
  - cbn [replace_scan]. rewrite Hs. rewrite replace_scan_skip.
    destruct old as [|o old']; [congruence|].
    replace (length (o :: old') - 1) with (length old') by (simpl; lia).
    reflexivity.
Qed.

Lemma py_replace_copy (old new : str) (c : N) (r : str) :
  startswith old (c :: r) = false ->
  py_replace old new (c :: r) = c :: py_replace old new r.
Proof.
  unfold py_replace. intros Hs. cbn [replace_scan]. now rewrite Hs.
Qed.

Section StringLemmas.
Context {U : UnicodeTables}.

Lemma split_from_open (s tok : str) :
  tok <> [] ->
  hd_error (split_from tok s) = Some (rev tok ++ take_token s).
Proof.
  revert tok. induction s as [|c r IH]; intros tok Htok; simpl.
  - destruct tok; [congruence|]. now rewrite app_nil_r.
  - destruct (isspace c).
    + destruct tok; [congruence|]. now rewrite app_nil_r.
    + rewrite IH by discriminate. simpl. now rewrite <- app_assoc.
Qed.

Lemma py_split_head (s : str) : hd_error (py_split s) = first_token s.
Proof.
  unfold py_split, first_token. induction s as [|c r IH]; simpl.
  - reflexivity.
  - destruct (isspace c) eqn:Hc.
    + exact IH.
    + rewrite split_from_open by discriminate. simpl. now rewrite Hc.
Qed.

Lemma lstrip_split (s : str) :
  exists ws, s = ws ++ lstrip s /\ forallb isspace ws = true.
Proof.
  induction s as [|c r [ws [Hs Hws]]]; simpl.
  - now exists [].
  - destruct (isspace c) eqn:Hc.
    + exists (c :: ws). simpl. rewrite Hc, Hws. split; [now f_equal | reflexivity].
    + now exists [].
Qed.

Lemma lstrip_idem (s : str) : lstrip (lstrip s) = lstrip s.
Proof.
  induction s as [|c r IH]; simpl; [reflexivity|].
  destruct (isspace c) eqn:Hc; [exact IH|]. simpl. now rewrite Hc.
Qed.

Lemma rstrip_split (s : str) :
  exists ws, s = rstrip s ++ ws /\ forallb isspace ws = true.
Proof.
  unfold rstrip. destruct (lstrip_split (rev s)) as [ws [Hs Hws]].
  exists (rev ws). split.
  - rewrite <- rev_app_distr, <- Hs. now rewrite rev_involutive.
  - rewrite forallb_forall in *. intros x Hx. apply Hws. now apply in_rev.
Qed.

Lemma take_token_spaces (ws : str) :
  forallb isspace ws = true -> take_token ws = [].
Proof.
  destruct ws as [|c r]; simpl; [reflexivity|].
  destruct (isspace c); [reflexivity | discriminate].
Qed.

Lemma lstrip_spaces (ws : str) :
  forallb isspace ws = true -> lstrip ws = [].
Proof.
  induction ws as [|c r IH]; simpl; [reflexivity|].
  destruct (isspace c); [exact IH | discriminate].
Qed.

Lemma take_token_app_spaces (a ws : str) :
  forallb isspace ws = true -> take_token (a ++ ws) = take_token a.
Proof.
  intros Hws. induction a as [|c r IH]; simpl.
  - now apply take_token_spaces.
  - destruct (isspace c); [reflexivity | now rewrite IH].
Qed.

Lemma first_token_app_spaces (a ws : str) :
  forallb isspace ws = true -> first_token (a ++ ws) = first_token a.
Proof.
  intros Hws. unfold first_token. induction a as [|c r IH]; simpl.
  - now rewrite (lstrip_spaces _ Hws).
  - destruct (isspace c) eqn:Hc; [exact IH|].
    simpl. rewrite Hc. now rewrite take_token_app_spaces.
Qed.

(** Trimming does not change the first token. *)
Lemma first_token_strip (s : str) : first_token (py_strip s) = first_token s.
Proof.
  unfold py_strip.
  destruct (rstrip_split (lstrip s)) as [ws [Hs Hws]].
  transitivity (first_token (lstrip s)).
  - rewrite Hs at 2. symmetry. now apply first_token_app_spaces.
  - unfold first_token. now rewrite lstrip_idem.
Qed.

(** The normalisation, by the first token of the lowercased, trimmed
    response with its markers removed. *)
Lemma normalize_response_first_token (raw : str) :
  normalize_response raw =
  match first_token (py_replace (lit "category:") [] (py_lower (py_strip raw))) with
  | Some tok => if py_in tok CATEGORIES then tok else other
  | None => other
  end.
Proof.
  unfold normalize_response. cbv zeta.
  set (s := py_replace _ _ _).
  rewrite <- (first_token_strip s), <- py_split_head.
  destruct (py_split (py_strip s)) as [|tok toks]; cbn [hd_error].
  - now rewrite (proj2 (py_in_In _ _) other_in_CATEGORIES).
  - now destruct (py_in tok CATEGORIES).
Qed.

Lemma normalize_response_in (raw : str) : In (normalize_response raw) CATEGORIES.
Proof.
  rewrite normalize_response_first_token.
  destruct (first_token _) as [tok|]; [|apply other_in_CATEGORIES].
  destruct (py_in tok CATEGORIES) eqn:Hin.
  - now apply py_in_In.
  - apply other_in_CATEGORIES.
Qed.

End StringLemmas.

(* ================================================================== *)
(** * The retry loop: lemmas *)
(* ================================================================== *)

Section RetryLemmas.
Context {U : UnicodeTables} {World : Type} {E : Endpoint World}.

(** Everything the loop can do for one record, by the number [n] of
    attempts it makes. *)
Lemma retry_cases (example : Row) (st : State World) :
  exists n c,
    1 <= n <= 3 /\
    fst (retry example st) = Some c /\
    In c CATEGORIES /\
    events (snd (retry example st)) = events st ++ attempts_trace example n /\
    results (snd (retry example st)) = results st /\
    ((exists raw, succeeds_on example (world st) n raw /\
                  c = normalize_response raw /\
                  failed_count (snd (retry example st)) = failed_count st)
     \/ (n = 3 /\ fails_throughout example (world st) /\ c = other /\
         failed_count (snd (retry example st)) = failed_count st + 1)).
Proof.
  unfold retry, succeeds_on, fails_throughout, attempts_trace, max_retries.
  cbn [seq retry_loop answers].
  destruct (http_post (dataset_request example 0) (world st)) as [o1 w1] eqn:H1.
  destruct o1 as [raw1|].
  { exists 1, (normalize_response raw1). cbn.
    rewrite H1. repeat split; try lia; try apply normalize_response_in.
    left. exists raw1. repeat split. }
  cbn [Nat.eqb Nat.sub world events results failed_count].
  destruct (http_post (dataset_request example 1) w1) as [o2 w2] eqn:H2.
  destruct o2 as [raw2|].
  { exists 2, (normalize_response raw2). cbn.
    rewrite H1, H2. rewrite <- app_assoc.
    repeat split; try lia; try apply normalize_response_in.
    left. exists raw2. repeat split. }
  cbn [Nat.eqb Nat.sub world events results failed_count].
  destruct (http_post (dataset_request example 2) w2) as [o3 w3] eqn:H3.
  destruct o3 as [raw3|].
  { exists 3, (normalize_response raw3). cbn.
    rewrite H1, H2, H3. rewrite <- !app_assoc.
    repeat split; try lia; try apply normalize_response_in.
    left. exists raw3. repeat split. }
  exists 3, other. cbn.
  rewrite H1, H2, H3. rewrite <- !app_assoc.
  repeat split; try lia; try apply other_in_CATEGORIES.
  right. repeat split.
Qed.

(** A reply on attempt [k] after [k - 1] exceptions: the loop stops
    there with the normalised reply and leaves the counter alone. *)
Lemma retry_succeeds (example : Row) (st : State World) (k : nat) (raw : str) :
  1 <= k <= 3 ->
  succeeds_on example (world st) k raw ->
  fst (retry example st) = Some (normalize_response raw) /\
  events (snd (retry example st)) = events st ++ attempts_trace example k /\
  results (snd (retry example st)) = results st /\
  failed_count (snd (retry example st)) = failed_count st.
Proof.
  unfold retry, succeeds_on, attempts_trace, max_retries.
  intros Hk H.
  assert (Hc : k = 1 \/ k = 2 \/ k = 3) by lia.
  destruct Hc as [-> | [-> | ->]]; cbn [seq answers repeat Nat.sub app] in H;
    cbn [seq retry_loop].
  - destruct (http_post (dataset_request example 0) (world st)) as [o1 w1].
    injection H as ->. cbn. repeat split.
  - destruct (http_post (dataset_request example 0) (world st)) as [o1 w1].
    destruct (http_post (dataset_request example 1) w1) as [o2 w2] eqn:H2.
    injection H as -> ->. cbn. rewrite H2. cbn.
    rewrite <- app_assoc. repeat split.
  - destruct (http_post (dataset_request example 0) (world st)) as [o1 w1].
    destruct (http_post (dataset_request example 1) w1) as [o2 w2] eqn:H2.
    destruct (http_post (dataset_request example 2) w2) as [o3 w3] eqn:H3.
    injection H as -> -> ->. cbn. rewrite H2. cbn. rewrite H3. cbn.
    rewrite <- !app_assoc. repeat split.
Qed.

(** Three exceptions in a row: three attempts, the fallback label, and
    one more failure counted. *)
Lemma retry_fails (example : Row) (st : State World) :
  fails_throughout example (world st) ->
  fst (retry example st) = Some other /\
  events (snd (retry example st)) = events st ++ attempts_trace example 3 /\
  results (snd (retry example st)) = results st /\
  failed_count (snd (retry example st)) = failed_count st + 1.
Proof.
  unfold retry, fails_throughout, attempts_trace, max_retries.
  cbn [seq answers repeat retry_loop]. intros H.
  destruct (http_post (dataset_request example 0) (world st)) as [o1 w1].
  destruct (http_post (dataset_request example 1) w1) as [o2 w2] eqn:H2.
  destruct (http_post (dataset_request example 2) w2) as [o3 w3] eqn:H3.
  injection H as -> -> ->. cbn. rewrite H2. cbn. rewrite H3. cbn.
  rewrite <- !app_assoc. repeat split.
Qed.

(** The label and the item that [iteration] appends. *)
Lemma iteration_results (i : nat) (example : Row) (st : State World) :
  results (iteration i example st) =
  results st ++ [result_item example (fst (retry example st))].
Proof.
  unfold iteration.
  destruct (retry_cases example st) as (n & c & _ & _ & _ & _ & Hr & _).
  destruct (retry example st) as [cat st1]. cbn in *. now rewrite Hr.
Qed.

Lemma iteration_failed_count (i : nat) (example : Row) (st : State World) :
  failed_count (iteration i example st) = failed_count (snd (retry example st)).
Proof. unfold iteration. now destruct (retry example st). Qed.

End RetryLemmas.

(* ================================================================== *)
(** * The batch loop: lemmas *)
(* ================================================================== *)

Section BatchLemmas.
Context {U : UnicodeTables} {World : Type} {E : Endpoint World}.

Lemma iteration_events (i : nat) (example : Row) (st : State World) :
  length (results st) = i ->
  exists n,
    1 <= n <= 3 /\
    events (iteration i example st) =
    events st ++ attempts_trace example n
      ++ checkpoint_after (i + 1) (results (iteration i example st)).
Proof.
  intros Hi.
  destruct (retry_cases example st) as (n & c & Hn & _ & _ & He & Hr & _).
  exists n. split; [exact Hn|].
  unfold checkpoint_after. rewrite iteration_results.
  rewrite firstn_all2 by (rewrite length_app; cbn [length]; lia).
  unfold iteration. destruct (retry example st) as [cat st1].
  cbn [fst snd events results] in *. rewrite He, Hr.
  destruct ((i + 1) mod 500 =? 0).
  - rewrite <- app_assoc. reflexivity.
  - now rewrite app_nil_r.
Qed.

Lemma iteration_labelled (i : nat) (example : Row) (st : State World) :
  exists item,
    results (iteration i example st) = results st ++ [item] /\
    row_of item = example /\ labelled item.
Proof.
  destruct (retry_cases example st) as (n & c & _ & Hc & Hin & _).
  eexists. split; [apply iteration_results|]. split.
  - now destruct example.
  - exists c. cbn. now split.
Qed.

Lemma checkpoint_after_prefix (m : nat) (rs extra : list Item) :
  m <= length rs ->
  checkpoint_after m (rs ++ extra) = checkpoint_after m rs.
Proof.
  intros Hm. unfold checkpoint_after.
  destruct (m mod 500 =? 0); [|reflexivity].
  rewrite firstn_app. replace (m - length rs) with 0 by lia.
  cbn [firstn]. now rewrite app_nil_r.
Qed.

(** The whole loop from index [i]: what it appends to [results] and to
    the log. *)
Lemma batch_loop_spec (examples : list Row) :
  forall (i : nat) (st : State World),
    length (results st) = i ->
    exists extra ns,
      results (batch_loop i examples st) = results st ++ extra /\
      map row_of extra = examples /\
      Forall labelled extra /\
      length ns = length examples /\
      Forall (fun n => 1 <= n <= 3) ns /\
      events (batch_loop i examples st) =
      events st ++ batch_trace i examples ns (results st ++ extra).
Proof.
  induction examples as [|example rest IH]; intros i st Hi; cbn [batch_loop].
  - exists [], []. cbn. rewrite !app_nil_r. repeat split; constructor.
  - destruct (iteration_labelled i example st) as (item & Hr & Hrow & Hlab).
    destruct (iteration_events example st Hi) as (n & Hn & He).
    destruct (IH (S i) (iteration i example st)) as
      (extra & ns & Hr' & Hrows & Hlabs & Hlen & Hns & He').
    { rewrite Hr, length_app. cbn. lia. }
    exists (item :: extra), (n :: ns).
    rewrite Hr in Hr', He', He. rewrite <- app_assoc in Hr', He'. cbn [app] in Hr', He'.
    repeat split.
    + exact Hr'.
    + cbn. now rewrite Hrow, Hrows.
    + now constructor.
    + cbn. now rewrite Hlen.
    + now constructor.
    + rewrite He', He. cbn [batch_trace].
      rewrite <- !app_assoc. do 2 f_equal.
      f_equal.
      replace (results st ++ item :: extra)
        with ((results st ++ [item]) ++ extra) by now rewrite <- app_assoc.
      symmetry. apply checkpoint_after_prefix.
      rewrite length_app. cbn. lia.
Qed.

End BatchLemmas.

(* ================================================================== *)
(** * Grouping by category and the files written: lemmas *)
(* ================================================================== *)

Lemma distinct_NoDup (xs : list str) : distinct xs = true -> NoDup xs.
Proof.
  induction xs as [|x r IH]; cbn; intros H; constructor.
  - apply andb_prop in H. destruct H as [H _].
    apply py_in_not_In. now destruct (py_in x r).
  - apply IH. now apply andb_prop in H.
Qed.

Lemma CATEGORIES_NoDup : NoDup CATEGORIES.
Proof. apply distinct_NoDup. vm_compute. reflexivity. Qed.

Lemma has_category_true (cat : str) (item : Item) :
  has_category cat item = true <-> category item = Some cat.
Proof.
  unfold has_category. destruct (category item) as [c|].
  - rewrite str_eqb_eq. split; congruence.
  - split; discriminate.
Qed.

Lemma str_eqb_refl (a : str) : str_eqb a a = true.
Proof. now apply str_eqb_eq. Qed.

Lemma str_eqb_neq (a b : str) : a <> b -> str_eqb a b = false.
Proof.
  intros H. destruct (str_eqb a b) eqn:Heq; [|reflexivity].
  apply str_eqb_eq in Heq. contradiction.
Qed.

(** Appending under a key that is present touches that key's list only. *)
Lemma dict_append_spec (d : Dict) (c : str) (item : Item) :
  NoDup (map fst d) -> In c (map fst d) ->
  dict_append d (Some c) item =
  Some (map (fun kl => (fst kl, if str_eqb c (fst kl)
                                then snd kl ++ [item] else snd kl)) d).
Proof.
  induction d as [|[k items] d IH]; cbn [map fst snd dict_append]; intros Hnd Hin.
  - destruct Hin.
  - inversion Hnd as [|? ? Hk Hnd']; subst.
    destruct (str_eqb c k) eqn:Hck.
    + apply str_eqb_eq in Hck. subst k. do 2 f_equal.
      clear IH Hin Hnd Hnd'. induction d as [|[k' items'] d IHd]; cbn; [reflexivity|].
      cbn in Hk. rewrite str_eqb_neq by intuition congruence.
      f_equal. apply IHd. intuition.
    + destruct Hin as [Heq | Hin].
      * subst k. now rewrite str_eqb_refl in Hck.
      * rewrite (IH Hnd' Hin). reflexivity.
Qed.

Lemma group_items_spec (items : list Item) :
  forall d : Dict,
    NoDup (map fst d) ->
    Forall (fun item => exists c, category item = Some c /\ In c (map fst d)) items ->
    group_items items d =
    Some (map (fun kl => (fst kl, snd kl ++ items_of (fst kl) items)) d).
Proof.
  induction items as [|item rest IH]; intros d Hnd Hall; cbn [group_items].
  - f_equal. rewrite <- (map_id d) at 1. apply map_ext.
    intros [k l]. cbn. now rewrite app_nil_r.
  - inversion Hall as [|? ? (c & Hc & Hin) Hrest]; subst.
    rewrite Hc, (@dict_append_spec d c item Hnd Hin).
    rewrite IH.
    + f_equal. rewrite map_map. apply map_ext. intros [k l]. cbn [fst snd].
      f_equal. unfold items_of. cbn [filter]. unfold has_category at 2.
      rewrite Hc. destruct (str_eqb c k); [|reflexivity].
      now rewrite <- app_assoc.
    + now rewrite map_map.
    + rewrite map_map. exact Hrest.
Qed.

(** The partition of a list of labelled items. *)
Lemma group_items_partition (items : list Item) :
  Forall labelled items ->
  group_items items empty_partition =
  Some (map (fun cat => (cat, items_of cat items)) CATEGORIES).
Proof.
  intros Hall. unfold empty_partition.
  assert (Hkeys : map fst (map (fun cat : str => (cat, @nil Item)) CATEGORIES) = CATEGORIES).
  { rewrite map_map. apply map_id. }
  rewrite group_items_spec.
  - now rewrite map_map.
  - rewrite Hkeys. apply CATEGORIES_NoDup.
  - rewrite Hkeys. exact Hall.
Qed.

Lemma category_dumps_spec (f : str -> list Item) (cats : list str) :
  category_dumps (map (fun cat => (cat, f cat)) cats) =
  map (fun cat => Dump (category_file cat) (f cat))
      (filter (fun cat => nonempty (f cat)) cats).
Proof.
  induction cats as [|cat cats IH]; cbn [map filter category_dumps]; [reflexivity|].
  destruct (f cat) eqn:Hf; cbn [nonempty].
  - exact IH.
  - cbn [map]. now rewrite Hf, IH.
Qed.

Lemma dumps_app (a b : list Event) : dumps (a ++ b) = dumps a ++ dumps b.
Proof. apply flat_map_app. Qed.

Lemma posts_app (a b : list Event) : posts (a ++ b) = posts a ++ posts b.
Proof. apply flat_map_app. Qed.

Lemma dumps_category_files (f : str -> list Item) (cats : list str) :
  dumps (map (fun cat => Dump (category_file cat) (f cat)) cats) =
  map (fun cat => (category_file cat, f cat)) cats.
Proof. induction cats as [|c r IH]; cbn; [reflexivity | now f_equal]. Qed.

(** The multiples of 500 up to [n]. *)
Lemma multiples_of_500 (n : nat) :
  filter (fun m => m mod 500 =? 0) (seq 1 n) =
  map (fun j => 500 * j) (seq 1 (n / 500)).
Proof.
  induction n as [|n IH]; [reflexivity|].
  rewrite seq_S, filter_app, IH. cbn [filter]. cbn [Nat.add].
  destruct (S n mod 500 =? 0) eqn:Hm.
  - apply Nat.eqb_eq in Hm.
    assert (Hd : S n / 500 = S (n / 500)).
    { pose proof (Nat.div_mod_eq (S n) 500). pose proof (Nat.div_mod_eq n 500).
      pose proof (Nat.mod_upper_bound n 500). lia. }
    rewrite Hd, seq_S, map_app. cbn [map Nat.add]. do 3 f_equal.
    pose proof (Nat.div_mod_eq (S n) 500). lia.
  - apply Nat.eqb_neq in Hm. rewrite app_nil_r.
    assert (Hd : S n / 500 = n / 500).
    { pose proof (Nat.div_mod_eq (S n) 500). pose proof (Nat.div_mod_eq n 500).
      pose proof (Nat.mod_upper_bound n 500). pose proof (Nat.mod_upper_bound (S n) 500).
      lia. }
    now rewrite Hd.
Qed.

Section DumpLemmas.
Context {U : UnicodeTables} {World : Type} {E : Endpoint World}.

Lemma dumps_attempts_trace (example : Row) (n : nat) :
  dumps (attempts_trace example n) = [].
Proof.
  unfold attempts_trace. generalize 0.
  induction n as [|n IH]; intros a; cbn [seq map]; [reflexivity|].
  unfold dumps. cbn [flat_map app]. apply IH.
Qed.

Lemma posts_attempts_trace (example : Row) (n : nat) :
  posts (attempts_trace example n) = map (dataset_request example) (seq 0 n).
Proof.
  unfold attempts_trace. generalize 0.
  induction n as [|n IH]; intros a; cbn [seq map]; [reflexivity|].
  unfold posts. cbn [flat_map app]. f_equal. apply IH.
Qed.

(** The checkpoints of a batch trace. *)
Lemma dumps_batch_trace (examples : list Row) (rs : list Item) :
  forall (i : nat) (ns : list nat),
    length ns = length examples ->
    dumps (batch_trace i examples ns rs) =
    map (fun m => (checkpoint_file m, firstn m rs))
        (filter (fun m => m mod 500 =? 0) (seq (S i) (length examples))).
Proof.
  induction examples as [|example rest IH]; intros i [|n ns] Hlen;
    try discriminate; cbn [batch_trace length seq filter]; [reflexivity|].
  rewrite !dumps_app, dumps_attempts_trace, IH by (cbn in Hlen; lia).
  unfold checkpoint_after. rewrite Nat.add_1_r.
  destruct (S i mod 500 =? 0); reflexivity.
Qed.

End DumpLemmas.

(* ================================================================== *)
(** * The whole run: lemmas *)
(* ================================================================== *)

Lemma posts_dump_files (A : Type) (name : A -> str) (f : A -> list Item) (xs : list A) :
  posts (map (fun x => Dump (name x) (f x)) xs) = [].
Proof. induction xs as [|x r IH]; cbn; [reflexivity | exact IH]. Qed.

(** File names: a checkpoint never shares its name with the final file
    or with a category file. *)
Lemma checkpoint_file_not_final (m : nat) : checkpoint_file m <> final_file.
Proof.
  unfold checkpoint_file. generalize (py_str_of_nat m). intros x H.
  vm_compute in H. discriminate H.
Qed.

Lemma checkpoint_file_not_category (m : nat) (cat : str) :
  In cat CATEGORIES -> checkpoint_file m <> category_file cat.
Proof.
  unfold checkpoint_file. generalize (py_str_of_nat m). intros x Hin H.
  cbv in Hin.
  repeat (destruct Hin as [<- | Hin]; [vm_compute in H; discriminate H|]).
  destruct Hin.
Qed.

Lemma category_files_distinct :
  NoDup (final_file :: map category_file CATEGORIES).
Proof. apply distinct_NoDup. vm_compute. reflexivity. Qed.

Section RunLemmas.
Context {U : UnicodeTables} {World : Type} {E : Endpoint World}.

Lemma posts_batch_trace (examples : list Row) (rs : list Item) :
  forall (i : nat) (ns : list nat),
    posts (batch_trace i examples ns rs) =
    flat_map (fun en => map (dataset_request (fst en)) (seq 0 (snd en)))
             (combine examples ns).
Proof.
  induction examples as [|example rest IH]; intros i [|n ns];
    cbn [batch_trace combine flat_map]; try reflexivity.
  rewrite !posts_app, posts_attempts_trace, IH. cbn [fst snd].
  unfold checkpoint_after. destruct ((i + 1) mod 500 =? 0); reflexivity.
Qed.

(** The run as a whole. *)
Lemma classify_alpaca_dataset_spec (dataset : list Row) (w : World) :
  exists rs ns,
    fst (classify_alpaca_dataset dataset w) = Returned rs /\
    results (snd (classify_alpaca_dataset dataset w)) = rs /\
    map row_of rs = dataset /\
    Forall labelled rs /\
    length ns = length dataset /\
    Forall (fun n => 1 <= n <= 3) ns /\
    group_items rs empty_partition =
      Some (map (fun cat => (cat, items_of cat rs)) CATEGORIES) /\
    events (snd (classify_alpaca_dataset dataset w)) =
      batch_trace 0 dataset ns rs
        ++ Dump final_file rs
        :: map (fun cat => Dump (category_file cat) (items_of cat rs))
               (filter (fun cat => nonempty (items_of cat rs)) CATEGORIES).
Proof.
  destruct (@batch_loop_spec U World E dataset 0 (initial_state w) eq_refl)
    as (rs & ns & Hr & Hrows & Hlab & Hlen & Hns & He).
  cbn [initial_state results events app] in Hr, He.
  exists rs, ns.
  pose proof (group_items_partition Hlab) as Hg.
  unfold classify_alpaca_dataset. cbn [results events world failed_count].
  rewrite Hr, Hg. cbn [fst snd results events].
  rewrite He, category_dumps_spec, <- app_assoc.
  repeat split; assumption.
Qed.

End RunLemmas.

(* ================================================================== *)
(** * Properties of the program *)
(* ================================================================== *)

Section Properties.
Context {U : UnicodeTables} {World : Type} {E : Endpoint World}.

(** A response of whitespace only (the empty one included) is
    normalised to the fallback. *)
Lemma normalize_response_blank (raw : str) :
  forallb isspace raw = true -> normalize_response raw = other.
Proof.
  intros Hws. unfold normalize_response.
  assert (Hs : py_strip raw = []).
  { unfold py_strip. now rewrite (lstrip_spaces _ Hws). }
  rewrite Hs. vm_compute. reflexivity.
Qed.

(** C1.  The normalisation of any response string, empty and blank ones
    included, is one of the 21 members of [CATEGORIES], of which the
    fallback ["other"] is one. *)
Theorem normalize_response_in_CATEGORIES :
  (forall raw : str, In (normalize_response raw) CATEGORIES) /\
  length CATEGORIES = 21 /\
  In other CATEGORIES /\
  normalize_response [] = other /\
  normalize_response (lit "   ") = other.
Proof.
  split; [exact normalize_response_in|].
  split; [reflexivity|].
  split; [exact other_in_CATEGORIES|].
  split; vm_compute; reflexivity.
Qed.

(** C2.  For a record whose three attempts all raise, the iteration
    appends the record with the fallback label and adds exactly one to
    [failed_count]; for a record with a reply on some attempt, it
    appends the record with the normalised reply and leaves
    [failed_count] as it was, whatever that label is. *)
Theorem failed_count_counts_exhausted_records
    (i : nat) (example : Row) (st : State World) :
  (fails_throughout example (world st) ->
     results (iteration i example st)
       = results st ++ [result_item example (Some other)] /\
     failed_count (iteration i example st) = failed_count st + 1) /\
  (forall (k : nat) (raw : str),
     1 <= k <= 3 ->
     succeeds_on example (world st) k raw ->
     results (iteration i example st)
       = results st ++ [result_item example (Some (normalize_response raw))] /\
     failed_count (iteration i example st) = failed_count st).
Proof.
  split.
  - intros H. destruct (@retry_fails _ _ _ example st H) as (Hc & _ & _ & Hf).
    now rewrite iteration_results, iteration_failed_count, Hc, Hf.
  - intros k raw Hk H.
    destruct (@retry_succeeds _ _ _ example st k raw Hk H) as (Hc & _ & _ & Hf).
    now rewrite iteration_results, iteration_failed_count, Hc, Hf.
Qed.

(** C3.  Attempt [k] of a record is sent with timeout [60 * k]; the
    requests of one record are the first [n] of the three attempts, for
    some [n] from 1 to 3, so their timeouts are a prefix of 60, 120, 180
    in that order and there is no fourth; and the requests of a whole
    run are those of its records, one record after the other. *)
Theorem timeouts_60_120_180 (example : Row) (st : State World)
    (dataset : list Row) (w : World) :
  (forall attempt : nat,
     timeout (dataset_request example attempt) = (60 * N.of_nat (attempt + 1))%N) /\
  (exists n : nat,
     1 <= n <= 3 /\
     posts (events (snd (retry example st)))
       = posts (events st) ++ map (dataset_request example) (seq 0 n) /\
     map timeout (map (dataset_request example) (seq 0 n))
       = firstn n [60; 120; 180]%N) /\
  (exists ns : list nat,
     length ns = length dataset /\
     Forall (fun n => 1 <= n <= 3) ns /\
     posts (events (snd (classify_alpaca_dataset dataset w)))
       = flat_map (fun en => map (dataset_request (fst en)) (seq 0 (snd en)))
                  (combine dataset ns)).
Proof.
  split; [|split].
  - intros attempt. cbn [dataset_request timeout]. unfold timeout_val. lia.
  - destruct (retry_cases example st) as (n & c & Hn & _ & _ & He & _).
    exists n. split; [exact Hn|]. split.
    + now rewrite He, posts_app, posts_attempts_trace.
    + assert (Hc : n = 1 \/ n = 2 \/ n = 3) by lia.
      destruct Hc as [-> | [-> | ->]]; reflexivity.
  - destruct (classify_alpaca_dataset_spec dataset w)
      as (rs & ns & _ & _ & _ & _ & Hlen & Hns & _ & He).
    exists ns. split; [exact Hlen|]. split; [exact Hns|].
    rewrite He, posts_app, posts_batch_trace.
    change (Dump final_file rs :: ?l) with ([Dump final_file rs] ++ l).
    rewrite posts_app, posts_dump_files. cbn [posts flat_map app].
    now rewrite app_nil_r.
Qed.

(** C4.  When the endpoint replies on attempt [k] after [k - 1]
    exceptions, the loop sends exactly the requests of attempts 1 to [k]
    and no more, and the label of the record is the normalisation of
    that reply. *)
Theorem first_reply_ends_the_retries
    (i : nat) (example : Row) (st : State World) (k : nat) (raw : str) :
  1 <= k <= 3 ->
  succeeds_on example (world st) k raw ->
  fst (retry example st) = Some (normalize_response raw) /\
  events (snd (retry example st))
    = events st ++ map (fun a => Post (dataset_request example a)) (seq 0 k) /\
  length (posts (events (snd (retry example st)))) = length (posts (events st)) + k /\
  results (iteration i example st)
    = results st ++ [result_item example (Some (normalize_response raw))].
Proof.
  intros Hk H.
  destruct (@retry_succeeds _ _ _ example st k raw Hk H) as (Hc & He & _ & _).
  split; [exact Hc|]. split; [exact He|]. split.
  - rewrite He, posts_app, posts_attempts_trace, length_app, length_map, length_seq.
    reflexivity.
  - now rewrite iteration_results, Hc.
Qed.

(** C5, as amended.  The normalisation trims and lowercases the
    response, removes the text ["category:"] at every place where the
    left-to-right scan meets it, and looks at the first
    whitespace-delimited token of what remains: no token gives the
    fallback, a token that is a category is returned, any other token
    gives the fallback. *)
Theorem normalize_response_algorithm (raw : str) :
  let marker := lit "category:" in
  let s := py_replace marker [] (py_lower (py_strip raw)) in
  (first_token s = None -> normalize_response raw = other) /\
  (forall tok, first_token s = Some tok -> In tok CATEGORIES ->
               normalize_response raw = tok) /\
  (forall tok, first_token s = Some tok -> ~ In tok CATEGORIES ->
               normalize_response raw = other) /\
  (forall t, startswith marker t = true ->
             py_replace marker [] t = py_replace marker [] (skipn 9 t)) /\
  (forall c t, startswith marker (c :: t) = false ->
               py_replace marker [] (c :: t) = c :: py_replace marker [] t).
Proof.
  intros marker s. rewrite normalize_response_first_token. fold marker s.
  split; [|split; [|split; [|split]]].
  - now intros ->.
  - intros tok -> Hin. now rewrite (proj2 (py_in_In _ _) Hin).
  - intros tok -> Hin. now rewrite (proj2 (py_in_not_In _ _) Hin).
  - intros t Ht. now rewrite (@py_replace_match marker [] t) by (discriminate || exact Ht).
  - intros c t Ht. now apply py_replace_copy.
Qed.

(** C6.  The run returns; the list it returns has one item per dataset
    row, in the order of the dataset, and each item carries the
    instruction, input and output of its row. *)
Theorem results_follow_the_dataset (dataset : list Row) (w : World) :
  exists rs : list Item,
    fst (classify_alpaca_dataset dataset w) = Returned rs /\
    results (snd (classify_alpaca_dataset dataset w)) = rs /\
    length rs = length dataset /\
    map row_of rs = dataset /\
    Forall2 (fun item row => instruction item = row_instruction row /\
                             input item = row_input row /\
                             output item = row_output row) rs dataset.
Proof.
  destruct (classify_alpaca_dataset_spec dataset w)
    as (rs & ns & Hret & Hres & Hrows & _).
  exists rs. split; [exact Hret|]. split; [exact Hres|].
  split; [|split; [exact Hrows|]].
  - rewrite <- Hrows. now rewrite length_map.
  - rewrite <- Hrows. clear. induction rs as [|item rs IH]; cbn [map].
    + constructor.
    + constructor; [repeat split | exact IH].
Qed.

(** C7.  In a run over [N] rows the log is the batch trace (per record
    its requests, then the checkpoint if the count of records done is a
    multiple of 500), then the final file, then the rest.  The
    checkpoints in the batch trace are those for 500, 1000, ... up to
    [500 * (N / 500)]: [N / 500] of them, in that order, the one for [m]
    holding the first [m] of the [N] resulting records; nothing written
    afterwards bears a checkpoint's name. *)
Theorem checkpoints_every_500 (dataset : list Row) (w : World) :
  let run := classify_alpaca_dataset dataset w in
  let rs := results (snd run) in
  length rs = length dataset /\
  exists (ns : list nat) (rest : list Event),
    length ns = length dataset /\
    events (snd run) = batch_trace 0 dataset ns rs ++ Dump final_file rs :: rest /\
    dumps (batch_trace 0 dataset ns rs)
      = map (fun j => (checkpoint_file (500 * j), firstn (500 * j) rs))
            (seq 1 (length dataset / 500)) /\
    length (dumps (batch_trace 0 dataset ns rs)) = length dataset / 500 /\
    (forall m, ~ In (checkpoint_file m)
                    (map fst (dumps (Dump final_file rs :: rest)))).
Proof.
  intros run rs. subst run rs.
  destruct (classify_alpaca_dataset_spec dataset w)
    as (rs & ns & _ & Hres & Hrows & _ & Hlen & _ & _ & He).
  rewrite Hres. split.
  - rewrite <- Hrows. now rewrite length_map.
  - eexists ns, _. split; [exact Hlen|]. split; [exact He|].
    assert (Hd : dumps (batch_trace 0 dataset ns rs)
                 = map (fun j => (checkpoint_file (500 * j), firstn (500 * j) rs))
                       (seq 1 (length dataset / 500))).
    { rewrite dumps_batch_trace by exact Hlen.
      now rewrite multiples_of_500, map_map. }
    split; [exact Hd|]. split.
    + now rewrite Hd, length_map, length_seq.
    + intros m. cbn [dumps flat_map app map fst].
      fold (dumps (map (fun cat => Dump (category_file cat) (items_of cat rs))
                       (filter (fun cat => nonempty (items_of cat rs)) CATEGORIES))).
      rewrite dumps_category_files, map_map. cbn [fst].
      intros [Hfin | Hcat].
      * now apply (@checkpoint_file_not_final m).
      * apply in_map_iff in Hcat. destruct Hcat as (cat & Heq & Hin).
        apply filter_In in Hin. destruct Hin as [Hin _].
        now apply (@checkpoint_file_not_category m cat Hin).
Qed.

(** C8.  At the end of a run the grouping succeeds; its keys are
    [CATEGORIES], each key holding the results with that label in the
    order of the results.  After the final file the run writes one
    file per category whose list is non-empty, in the order of
    [CATEGORIES], each under its own name and holding that list; a
    record is in the list of [cat] exactly when it is a result labelled
    [cat]. *)
Theorem category_files_partition_results (dataset : list Row) (w : World) :
  let run := classify_alpaca_dataset dataset w in
  let rs := results (snd run) in
  exists (partition : Dict) (before : list Event),
    group_items rs empty_partition = Some partition /\
    map fst partition = CATEGORIES /\
    partition = map (fun cat => (cat, items_of cat rs)) CATEGORIES /\
    events (snd run) = before ++ Dump final_file rs :: category_dumps partition /\
    dumps before = map (fun j => (checkpoint_file (500 * j), firstn (500 * j) rs))
                       (seq 1 (length dataset / 500)) /\
    dumps (category_dumps partition)
      = map (fun cat => (category_file cat, items_of cat rs))
            (filter (fun cat => nonempty (items_of cat rs)) CATEGORIES) /\
    NoDup (final_file :: map category_file CATEGORIES) /\
    (forall cat item,
       In item (items_of cat rs) <-> In item rs /\ category item = Some cat) /\
    (forall item, In item rs -> exists cat, In cat CATEGORIES /\ category item = Some cat).
Proof.
  intros run rs. subst run rs.
  destruct (classify_alpaca_dataset_spec dataset w)
    as (rs & ns & _ & Hres & _ & Hlab & Hlen & _ & Hg & He).
  rewrite Hres.
  exists (map (fun cat => (cat, items_of cat rs)) CATEGORIES), (batch_trace 0 dataset ns rs).
  split; [exact Hg|]. split; [now rewrite map_map, map_id|].
  split; [reflexivity|]. split; [now rewrite category_dumps_spec|].
  split; [now rewrite dumps_batch_trace, multiples_of_500, map_map by exact Hlen|].
  split; [now rewrite category_dumps_spec, dumps_category_files|].
  split; [exact category_files_distinct|]. split.
  - intros cat item. unfold items_of. rewrite filter_In, has_category_true.
    reflexivity.
  - intros item Hin. rewrite Forall_forall in Hlab.
    destruct (Hlab item Hin) as (c & Hc & Hcin). exists c. split; assumption.
Qed.

(** C9.  When the probe raises, the block leaves with exit code 1
    having sent no request and written no file: the probe is the only
    event.  When the probe returns, [classify_alpaca_dataset] runs on
    the dataset, from the world the probe left, and returns. *)
Theorem probe_gates_the_run (dataset : list Row) (w : World) :
  (fst (http_get tags_url w) = false ->
     fst (main dataset w) = Exited 1 /\ (1 <> 0)%N /\
     events (snd (main dataset w)) = [Get tags_url] /\
     results (snd (main dataset w)) = []) /\
  (fst (http_get tags_url w) = true ->
     let run := classify_alpaca_dataset dataset (snd (http_get tags_url w)) in
     fst (main dataset w) = Classified (fst run) /\
     (exists rs, fst run = Returned rs /\ map row_of rs = dataset) /\
     events (snd (main dataset w)) = Get tags_url :: events (snd run) /\
     results (snd (main dataset w)) = results (snd run)).
Proof.
  unfold main. destruct (http_get tags_url w) as [up w1]. cbn [fst snd].
  split; intros ->.
  - repeat split. discriminate.
  - cbv zeta.
    destruct (classify_alpaca_dataset_spec dataset w1)
      as (rs & ns & Hret & _ & Hrows & _).
    destruct (classify_alpaca_dataset dataset w1) as [c st].
    cbn [fst snd events results] in *.
    repeat split. now exists rs.
Qed.

(** C10.  Every member of [CATEGORIES] is already lowercase, is a
    single token, does not contain the marker, and is its own
    normalisation; hence normalising twice is normalising once. *)
Theorem normalize_response_fixes_categories :
  (forall c : str,
     In c CATEGORIES ->
     py_lower c = c /\ py_split c = [c] /\
     py_replace (lit "category:") [] c = c /\
     normalize_response c = c) /\
  (forall raw : str,
     normalize_response (normalize_response raw) = normalize_response raw).
Proof.
  assert (Hfix : forall c : str,
     In c CATEGORIES ->
     py_lower c = c /\ py_split c = [c] /\
     py_replace (lit "category:") [] c = c /\
     normalize_response c = c).
  { intros c Hin. cbv in Hin.
    repeat (destruct Hin as [<- | Hin];
            [vm_compute; repeat split; reflexivity|]).
    destruct Hin. }
  split; [exact Hfix|].
  intros raw. apply Hfix. apply normalize_response_in.
Qed.

End Properties.

(* ================================================================== *)
(** * The program on concrete inputs *)
(* ================================================================== *)

Example normalize_marker_and_trailing_words :
  @normalize_response plain_tables (lit "Category: History extra words") = lit "history".
Proof. vm_compute. reflexivity. Qed.

Example normalize_blank_response :
  @normalize_response plain_tables (lit "  ") = lit "other".
Proof. vm_compute. reflexivity. Qed.

Example normalize_glued_marker :
  @normalize_response plain_tables (lit "sciencecategory:") = lit "science".
Proof. vm_compute. reflexivity. Qed.

Example replace_is_one_pass :
  py_replace (lit "category:") [] (lit "catcategory:egory:") = lit "category:".
Proof. vm_compute. reflexivity. Qed.

Example checkpoint_file_500 :
  checkpoint_file 500 = lit "alpaca_categorized_checkpoint_500.json".
Proof. vm_compute. reflexivity. Qed.

Example three_failures_timeouts :
  let st := snd (@retry plain_tables Script scripted (demo_row 1)
                   (initial_state (demo_world [Raised; Raised; Raised]))) in
  map timeout (posts (events st)) = [60; 120; 180]%N /\ failed_count st = 1.
Proof. vm_compute. split; reflexivity. Qed.

(** C5, counterexample.  On ["Category: Category: law"] the source
    removes both markers and answers ["law"]; removing the leading marker
    only leaves ["category:"] as first token and gives the fallback. *)
Lemma marker_removed_beyond_leading_position :
  @normalize_response plain_tables (lit "Category: Category: law") = lit "law" /\
  @leading_marker_normalize plain_tables (lit "Category: Category: law") = lit "other" /\
  @normalize_response plain_tables (lit "Category: Category: law")
    <> @leading_marker_normalize plain_tables (lit "Category: Category: law").
Proof.
  split; [vm_compute; reflexivity|].
  split; [vm_compute; reflexivity|].
  vm_compute. discriminate.
Qed.

Lemma failed_count_counts_exhausted_records_witness :
  let row := demo_row 1 in
  let down := initial_state (demo_world [Raised; Raised; Raised]) in
  let vague := initial_state (demo_world [Raised; Replied (lit "no idea")]) in
  (results (@iteration plain_tables Script scripted 0 row down)
     = [result_item row (Some other)] /\
   failed_count (@iteration plain_tables Script scripted 0 row down) = 1) /\
  (results (@iteration plain_tables Script scripted 0 row vague)
     = [result_item row (Some other)] /\
   failed_count (@iteration plain_tables Script scripted 0 row vague) = 0).
Proof.
  intros row down vague. split.
  - apply (proj1 (@failed_count_counts_exhausted_records
                    plain_tables Script scripted 0 row down)).
    reflexivity.
  - apply (proj2 (@failed_count_counts_exhausted_records
                    plain_tables Script scripted 0 row vague) 2 (lit "no idea")).
    + lia.
    + reflexivity.
Defined.

Lemma first_reply_ends_the_retries_witness :
  let row := demo_row 1 in
  let st := initial_state (demo_world [Raised; Replied (lit " Geography"); Raised]) in
  fst (@retry plain_tables Script scripted row st) = Some (lit "geography") /\
  length (posts (events (snd (@retry plain_tables Script scripted row st)))) = 2.
Proof.
  intros row st.
  destruct (@first_reply_ends_the_retries plain_tables Script scripted 0 row st
              2 (lit " Geography")) as (Hc & _ & Hn & _).
  - lia.
  - reflexivity.
  - split; [exact Hc | exact Hn].
Defined.

Lemma normalize_response_algorithm_witness :
  @normalize_response plain_tables (lit "Category: History extra words") = lit "history".
Proof.
  apply (proj1 (proj2 (@normalize_response_algorithm plain_tables
                         (lit "Category: History extra words")))).
  - reflexivity.
  - apply py_in_In. reflexivity.
Defined.

Lemma checkpoints_every_500_witness :
  let dataset := map demo_row (seq 0 1000) in
  let run := @classify_alpaca_dataset plain_tables Script scripted dataset (demo_world []) in
  exists (ns : list nat) (rest : list Event),
    events (snd run)
      = batch_trace 0 dataset ns (results (snd run))
          ++ Dump final_file (results (snd run)) :: rest /\
    map fst (dumps (batch_trace 0 dataset ns (results (snd run))))
      = [checkpoint_file 500; checkpoint_file 1000].
Proof.
  intros dataset run.
  destruct (@checkpoints_every_500 plain_tables Script scripted dataset (demo_world []))
    as (_ & ns & rest & _ & He & Hd & _).
  exists ns, rest. split; [exact He|].
  fold run in Hd. rewrite Hd.
  replace (length dataset / 500) with 2 by (vm_compute; reflexivity).
  reflexivity.
Defined.

Lemma category_files_partition_results_witness :
  let dataset := [demo_row 1; demo_row 2; demo_row 3] in
  let w := demo_world [Replied (lit "geography"); Replied (lit "Law.");
                       Raised; Replied (lit "Category: geography")] in
  let run := @classify_alpaca_dataset plain_tables Script scripted dataset w in
  exists before : list Event,
    events (snd run)
      = before
          ++ [Dump final_file (results (snd run));
              Dump (category_file (lit "geography"))
                   [result_item (demo_row 1) (Some (lit "geography"));
                    result_item (demo_row 3) (Some (lit "geography"))];
              Dump (category_file (lit "other"))
                   [result_item (demo_row 2) (Some (lit "other"))]].
Proof.
  intros dataset w run.
  destruct (@category_files_partition_results plain_tables Script scripted dataset w)
    as (partition & before & _ & _ & Hp & He & _).
  exists before. fold run in Hp, He. rewrite He, Hp.
  apply f_equal. vm_compute. reflexivity.
Defined.

Lemma probe_gates_the_run_witness :
  let dataset := [demo_row 1] in
  let down := {| reachable := false; replies := [Replied (lit "geography")] |} in
  let up := demo_world [Replied (lit "geography")] in
  (fst (@main plain_tables Script scripted dataset down) = Exited 1 /\
   events (snd (@main plain_tables Script scripted dataset down)) = [Get tags_url]) /\
  fst (@main plain_tables Script scripted dataset up)
    = Classified (Returned [result_item (demo_row 1) (Some (lit "geography"))]).
Proof.
  intros dataset down up. split.
  - destruct (proj1 (@probe_gates_the_run plain_tables Script scripted dataset down))
      as (Hx & _ & He & _).
    + reflexivity.
    + split; [exact Hx | exact He].
  - destruct (proj2 (@probe_gates_the_run plain_tables Script scripted dataset up))
      as (Hx & _).
    + reflexivity.
    + rewrite Hx. vm_compute. reflexivity.
Defined.

Lemma normalize_response_fixes_categories_witness :
  @normalize_response plain_tables (lit "health_medicine") = lit "health_medicine".
Proof.
  apply (proj1 (@normalize_response_fixes_categories plain_tables)).
  apply py_in_In. reflexivity.
Defined.

(* ================================================================== *)
(** * Responses the normalisation reads through *)
(* ================================================================== *)

Lemma clash_startswith (pre s t : str) :
  clash pre s = true -> startswith pre (s ++ t) = false.
Proof.
  revert s. induction pre as [|p pre IH]; intros [|c s] H; cbn in *;
    try discriminate.
  destruct (p =? c)%N; cbn in *; [now apply IH | reflexivity].
Qed.

(** A string in which [old] starts nowhere is copied by the scan. *)
Lemma py_replace_clashes (old new s t : str) :
  clashes_throughout old s = true ->
  py_replace old new (s ++ t) = s ++ py_replace old new t.
Proof.
  induction s as [|c s IH]; cbn [clashes_throughout app]; intros H.
  - reflexivity.
  - apply andb_prop in H. destruct H as [Hc Hs].
    rewrite py_replace_copy by (apply (@clash_startswith old (c :: s) t Hc)).
    now rewrite IH.
Qed.

Lemma categories_clash_with_marker :
  forallb (clashes_throughout (lit "category:")) CATEGORIES = true.
Proof. vm_compute. reflexivity. Qed.

Lemma py_replace_category (c t : str) :
  In c CATEGORIES ->
  py_replace (lit "category:") [] (c ++ t) = c ++ py_replace (lit "category:") [] t.
Proof.
  intros Hin. apply py_replace_clashes.
  pose proof categories_clash_with_marker as H.
  rewrite forallb_forall in H. now apply H.
Qed.

Section Tolerance.
Context {U : UnicodeTables}.

Lemma ascii_space_range (w : N) :
  is_ascii w = true -> isspace w = true ->
  (9 <= w <= 13 \/ 28 <= w <= 32)%N.
Proof.
  unfold is_ascii, isspace. intros Ha. rewrite Ha. intros H.
  apply orb_prop in H.
  destruct H as [H | H]; apply andb_prop in H; destruct H as [H1 H2];
    apply N.leb_le in H1, H2; lia.
Qed.

Lemma ascii_lower_space (w : N) :
  is_ascii w = true -> isspace w = true -> ascii_lower w = w.
Proof.
  intros Ha Hs. destruct (ascii_space_range w Ha Hs) as [H | H];
    unfold ascii_lower;
    destruct (65 <=? w)%N eqn:H1; cbn [andb]; try reflexivity;
    apply N.leb_le in H1; lia.
Qed.

Lemma isspace_ascii_lower (x : N) :
  is_ascii x = true -> isspace (ascii_lower x) = isspace x.
Proof.
  unfold is_ascii, ascii_lower. intros Ha. apply N.ltb_lt in Ha.
  destruct ((65 <=? x) && (x <=? 90))%N eqn:Hup; [|reflexivity].
  apply andb_prop in Hup. destruct Hup as [H1 H2].
  apply N.leb_le in H1, H2. unfold isspace.
  replace (x + 32 <? 128)%N with true by (symmetry; apply N.ltb_lt; lia).
  replace (x <? 128)%N with true by (symmetry; apply N.ltb_lt; lia).
  replace (x + 32 <=? 13)%N with false by (symmetry; apply N.leb_gt; lia).
  replace (28 <=? x)%N with true by (symmetry; apply N.leb_le; lia).
  replace (x + 32 <=? 32)%N with false by (symmetry; apply N.leb_gt; lia).
  replace (x <=? 13)%N with false by (symmetry; apply N.leb_gt; lia).
  replace (x <=? 32)%N with false by (symmetry; apply N.leb_gt; lia).
  now rewrite !andb_false_r.
Qed.

Lemma lstrip_app_stop (a : str) (y : N) (Y : str) :
  isspace y = false -> lstrip (a ++ y :: Y) = lstrip a ++ y :: Y.
Proof.
  intros Hy. induction a as [|x a IH]; cbn [app lstrip].
  - now rewrite Hy.
  - destruct (isspace x); [exact IH | reflexivity].
Qed.

(** Trimming stops at a non-whitespace code point on either side. *)
Lemma py_strip_core (pre core tail : str) (x z : N) (r r' : str) :
  forallb isspace pre = true ->
  core = x :: r -> isspace x = false ->
  core = r' ++ [z] -> isspace z = false ->
  py_strip (pre ++ core ++ tail) = core ++ rstrip tail.
Proof.
  intros Hpre Hhd Hx Hlast Hz. unfold py_strip.
  assert (Hl : lstrip (pre ++ core ++ tail) = core ++ tail).
  { rewrite Hhd. cbn [app]. rewrite lstrip_app_stop by exact Hx.
    now rewrite (lstrip_spaces _ Hpre). }
  rewrite Hl. unfold rstrip. rewrite rev_app_distr.
  rewrite Hlast at 1. rewrite rev_app_distr. cbn [rev app].
  rewrite lstrip_app_stop by exact Hz.
  rewrite rev_app_distr. cbn [rev]. rewrite rev_involutive.
  now rewrite <- Hlast.
Qed.

Lemma rstrip_word_break (tail : str) :
  word_break tail -> word_break (rstrip tail).
Proof.
  intros [-> | (w & t & -> & Ha & Hs)]; [now left|].
  destruct (rstrip_split (w :: t)) as (ws & Heq & _).
  destruct (rstrip (w :: t)) as [|y r]; [now left|].
  right. cbn in Heq. injection Heq as <- _. now exists w, r.
Qed.

Lemma lower_from_ascii (whole : str) (a t : str) :
  forall i : nat,
    forallb is_ascii a = true ->
    lower_from whole i (a ++ t)
    = map ascii_lower a ++ lower_from whole (i + length a) t.
Proof.
  induction a as [|c a IH]; intros i Ha; cbn [app map length lower_from].
  - now rewrite Nat.add_0_r.
  - cbn [forallb] in Ha. apply andb_prop in Ha. destruct Ha as [Hc Ha].
    unfold is_ascii in Hc. rewrite Hc. cbn [app]. f_equal.
    rewrite IH by exact Ha. do 2 f_equal. lia.
Qed.

Lemma lower_from_word_break (whole : str) (i : nat) (tail : str) :
  word_break tail -> word_break (lower_from whole i tail).
Proof.
  intros [-> | (w & t & -> & Ha & Hs)]; [now left|].
  right. cbn [lower_from]. unfold is_ascii in Ha. rewrite Ha.
  rewrite ascii_lower_space by assumption.
  exists w, (lower_from whole (S i) t). now repeat split.
Qed.

Lemma py_replace_space (w : N) (t : str) :
  is_ascii w = true -> isspace w = true ->
  py_replace (lit "category:") [] (w :: t)
  = w :: py_replace (lit "category:") [] t.
Proof.
  intros Ha Hs. apply py_replace_copy.
  change (lit "category:") with (99%N :: lit "ategory:").
  cbn [startswith].
  destruct (ascii_space_range w Ha Hs) as [H | H];
    replace (99 =? w)%N with false by (symmetry; apply N.eqb_neq; lia);
    reflexivity.
Qed.

Lemma py_replace_spaces (ws t : str) :
  forallb is_ascii ws = true -> forallb isspace ws = true ->
  py_replace (lit "category:") [] (ws ++ t)
  = ws ++ py_replace (lit "category:") [] t.
Proof.
  induction ws as [|w ws IH]; cbn [forallb app]; intros Ha Hs; [reflexivity|].
  apply andb_prop in Ha, Hs. destruct Ha as [Ha Has], Hs as [Hs Hss].
  rewrite py_replace_space by assumption. now rewrite IH.
Qed.

Lemma py_replace_word_break (tail : str) :
  word_break tail -> word_break (py_replace (lit "category:") [] tail).
Proof.
  intros [-> | (w & t & -> & Ha & Hs)]; [now left|].
  right. rewrite py_replace_space by assumption.
  now exists w, (py_replace (lit "category:") [] t).
Qed.

Lemma take_token_word (c tail : str) :
  forallb (fun x => negb (isspace x)) c = true -> word_break tail ->
  take_token (c ++ tail) = c.
Proof.
  intros Hc Hb. induction c as [|x c IH]; cbn [app take_token].
  - destruct Hb as [-> | (w & t & -> & _ & Hs)]; [reflexivity|].
    cbn [take_token]. now rewrite Hs.
  - cbn [forallb] in Hc. apply andb_prop in Hc. destruct Hc as [Hx Hc].
    destruct (isspace x); [discriminate|]. now rewrite IH.
Qed.

Lemma first_token_word (ws c tail : str) :
  forallb isspace ws = true ->
  c <> [] -> forallb (fun x => negb (isspace x)) c = true ->
  word_break tail ->
  first_token (ws ++ c ++ tail) = Some c.
Proof.
  intros Hws Hne Hc Hb. unfold first_token.
  destruct c as [|x c]; [congruence|].
  cbn [app]. rewrite lstrip_app_stop.
  - rewrite (lstrip_spaces _ Hws). cbn [app].
    change (x :: c ++ tail) with ((x :: c) ++ tail).
    now rewrite take_token_word.
  - cbn [forallb] in Hc. apply andb_prop in Hc. destruct Hc as [Hx _].
    now destruct (isspace x).
Qed.

Lemma categories_are_words :
  forallb (fun c => negb (str_eqb c []) && forallb (fun x => is_ascii x && negb (isspace x)) c)
          CATEGORIES = true.
Proof. vm_compute. reflexivity. Qed.

Lemma category_is_word (c : str) :
  In c CATEGORIES ->
  c <> [] /\ forallb (fun x => negb (isspace x)) c = true.
Proof.
  intros Hin. pose proof categories_are_words as H.
  rewrite forallb_forall in H. specialize (H c Hin).
  apply andb_prop in H. destruct H as [Hne Hw]. split.
  - intros ->. discriminate.
  - rewrite forallb_forall in *. intros x Hx. specialize (Hw x Hx).
    apply andb_prop in Hw. tauto.
Qed.

(** The normalisation of a lowercased, trimmed response in which the
    category stands first, after the marker at most. *)
Lemma label_after_lead (lead c tail : str) :
  In c CATEGORIES ->
  (lead = [] \/ exists ws, lead = lit "category:" ++ ws /\
                           forallb is_ascii ws = true /\ forallb isspace ws = true) ->
  word_break tail ->
  first_token (py_replace (lit "category:") [] (lead ++ c ++ tail)) = Some c.
Proof.
  intros Hin Hlead Hb. destruct (@category_is_word c Hin) as [Hne Hw].
  pose proof (py_replace_word_break Hb) as Hb'.
  destruct Hlead as [-> | (ws & -> & Ha & Hs)].
  - cbn [app]. rewrite py_replace_category by exact Hin.
    now apply (@first_token_word [] c).
  - rewrite <- app_assoc.
    rewrite py_replace_match by (discriminate || reflexivity).
    cbn [app]. change (skipn (length (lit "category:")) (lit "category:" ++ ws ++ c ++ tail))
      with (ws ++ c ++ tail).
    rewrite py_replace_spaces by assumption.
    rewrite py_replace_category by exact Hin.
    now apply first_token_word.
Qed.

Lemma map_ascii_lower_spaces (ws : str) :
  forallb is_ascii ws = true -> forallb isspace ws = true ->
  map ascii_lower ws = ws.
Proof.
  induction ws as [|w ws IH]; cbn [forallb map]; intros Ha Hs; [reflexivity|].
  apply andb_prop in Ha, Hs. destruct Ha as [Ha Has], Hs as [Hs Hss].
  rewrite ascii_lower_space by assumption. now rewrite IH.
Qed.

Lemma nonspace_before_lower (x : N) :
  is_ascii x = true -> isspace (ascii_lower x) = false -> isspace x = false.
Proof. intros Ha H. now rewrite <- isspace_ascii_lower. Qed.

(** A response made of whitespace, an optional marker, the category name
    in any letter case and further text after a whitespace, once trimmed. *)
Lemma py_strip_response (c pre lead body tail : str) :
  In c CATEGORIES ->
  forallb isspace pre = true ->
  marker_lead lead ->
  forallb is_ascii body = true -> map ascii_lower body = c ->
  py_strip (pre ++ (lead ++ body) ++ tail) = (lead ++ body) ++ rstrip tail.
Proof.
  intros Hin Hpre Hlead Hab Hbody.
  destruct (@category_is_word c Hin) as [Hne Hw].
  assert (Hbne : body <> []) by (intros ->; now apply Hne).
  assert (Hbw : forall b, In b body -> isspace b = false).
  { intros b Hb. apply nonspace_before_lower.
    - rewrite forallb_forall in Hab. now apply Hab.
    - rewrite forallb_forall in Hw.
      assert (Hl : In (ascii_lower b) c) by (rewrite <- Hbody; now apply in_map).
      specialize (Hw _ Hl). now destruct (isspace (ascii_lower b)). }
  destruct (exists_last Hbne) as (b' & z & Hlast).
  assert (Hz : isspace z = false).
  { apply Hbw. rewrite Hlast. apply in_or_app. right. now left. }
  destruct Hlead as [-> | (M & ws & -> & HaM & HM & _)].
  - destruct body as [|x r]; [congruence|]. cbn [app].
    apply (@py_strip_core pre (x :: r) tail x z r b'); try assumption.
    + reflexivity.
    + apply Hbw. now left.
  - destruct M as [|m M']; [discriminate|].
    apply (@py_strip_core pre (((m :: M') ++ ws) ++ body) tail m z
             ((M' ++ ws) ++ body) (((m :: M') ++ ws) ++ b')); try assumption.
    + reflexivity.
    + apply nonspace_before_lower.
      * cbn [forallb] in HaM. now apply andb_prop in HaM.
      * cbn [map] in HM. injection HM as Hm _. rewrite Hm.
        vm_compute. reflexivity.
    + rewrite Hlast. now rewrite <- !app_assoc.
Qed.

End Tolerance.

Section ToleranceTheorem.
Context {U : UnicodeTables}.

(** X1.  A response that consists of leading whitespace, optionally the
    marker in any letter case followed by ASCII whitespace, a category
    name in any ASCII letter case, and then nothing or any text after an
    ASCII whitespace, is normalised to that category. *)
Theorem normalize_response_reads_through (c pre lead body tail : str) :
  In c CATEGORIES ->
  forallb isspace pre = true ->
  marker_lead lead ->
  forallb is_ascii body = true -> map ascii_lower body = c ->
  word_break tail ->
  normalize_response (pre ++ lead ++ body ++ tail) = c.
Proof.
  intros Hin Hpre Hlead Hab Hbody Hb.
  rewrite normalize_response_first_token.
  replace (pre ++ lead ++ body ++ tail) with (pre ++ (lead ++ body) ++ tail)
    by now rewrite <- !app_assoc.
  rewrite (@py_strip_response U c pre lead body tail) by assumption.
  pose proof (rstrip_word_break Hb) as Hb1.
  set (tail1 := rstrip tail) in *.
  unfold py_lower. set (whole := (lead ++ body) ++ tail1).
  assert (Hfirst : first_token (py_replace (lit "category:") []
                                  (lower_from whole 0 whole)) = Some c).
  { unfold whole at 2.
    destruct Hlead as [-> | (M & ws & -> & HaM & HM & Haw & Hsw)].
    - cbn [app]. rewrite lower_from_ascii by exact Hab. rewrite Hbody.
      apply (@label_after_lead U [] c); [exact Hin | now left |].
      now apply lower_from_word_break.
    - rewrite lower_from_ascii.
      + rewrite !map_app, HM, Hbody, map_ascii_lower_spaces by assumption.
        rewrite <- !app_assoc.
        rewrite (app_assoc (lit "category:") ws).
        apply label_after_lead; [exact Hin | | now apply lower_from_word_break].
        right. now exists ws.
      + rewrite !forallb_app, HaM, Haw, Hab. reflexivity. }
  rewrite Hfirst. now rewrite (proj2 (py_in_In _ _) Hin).
Qed.

End ToleranceTheorem.

Lemma normalize_response_reads_through_witness :
  @normalize_response plain_tables
    (lit "  " ++ (lit "CATEGORY:" ++ lit " ") ++ lit "Health_Medicine"
       ++ lit " (nutrition)")
  = lit "health_medicine".
Proof.
  apply (@normalize_response_reads_through plain_tables).
  - apply py_in_In. reflexivity.
  - reflexivity.
  - right. exists (lit "CATEGORY:"), (lit " "). repeat split; reflexivity.
  - reflexivity.
  - reflexivity.
  - right. exists 32%N, (lit "(nutrition)"). repeat split; reflexivity.
Defined.

(* ================================================================== *)
(** * Requests and failures of a run *)
(* ================================================================== *)

Lemma posts_category_dumps (d : Dict) : posts (category_dumps d) = [].
Proof.
  induction d as [|[cat items] d IH]; cbn [category_dumps]; [reflexivity|].
  destruct items; [exact IH | exact IH].
Qed.

Lemma items_of_app (cat : str) (a b : list Item) :
  items_of cat (a ++ b) = items_of cat a ++ items_of cat b.
Proof. apply filter_app. Qed.

Section Accounting.
Context {U : UnicodeTables} {World : Type} {E : Endpoint World}.

Lemma iteration_posts (i : nat) (example : Row) (st : State World) :
  posts (events (iteration i example st))
  = posts (events (snd (retry example st))).
Proof.
  unfold iteration. destruct (retry example st) as [cat st1].
  cbn [snd events]. destruct ((i + 1) mod 500 =? 0); [|reflexivity].
  rewrite posts_app. cbn. now rewrite app_nil_r.
Qed.

Lemma iteration_world (i : nat) (example : Row) (st : State World) :
  world (iteration i example st) = world (snd (retry example st)).
Proof. unfold iteration. now destruct (retry example st). Qed.

(** One record: [n] requests and [f] failures counted, a failure costing
    all three requests and leaving the fallback label. *)
Lemma retry_accounting (example : Row) (st : State World) :
  exists n f,
    1 + 2 * f <= n <= 3 /\
    length (posts (events (snd (retry example st))))
      = length (posts (events st)) + n /\
    failed_count (snd (retry example st)) = failed_count st + f /\
    f <= length (items_of other [result_item example (fst (retry example st))]).
Proof.
  destruct (retry_cases example st)
    as (n & c & Hn & Hc & _ & He & _ & [(raw & _ & _ & Hf) | (-> & _ & -> & Hf)]).
  - exists n, 0. rewrite He, posts_app, posts_attempts_trace, length_app,
      length_map, length_seq, Hf. repeat split; lia.
  - exists 3, 1. rewrite He, posts_app, posts_attempts_trace, length_app,
      length_map, length_seq, Hf, Hc. repeat split; try lia.
    vm_compute. lia.
Qed.

Lemma batch_loop_accounting (examples : list Row) :
  forall (i : nat) (st : State World),
    let st' := batch_loop i examples st in
    length (posts (events st)) + length examples + 2 * failed_count st'
      <= length (posts (events st')) + 2 * failed_count st /\
    length (posts (events st'))
      <= length (posts (events st)) + 3 * length examples /\
    failed_count st <= failed_count st' /\
    failed_count st' + length (items_of other (results st))
      <= failed_count st + length (items_of other (results st')).
Proof.
  induction examples as [|example rest IH]; intros i st; cbn [batch_loop length].
  - cbv zeta. lia.
  - specialize (IH (S i) (iteration i example st)). cbv zeta in IH |- *.
    destruct (retry_accounting example st) as (n & f & Hn & Hp & Hf & Ho).
    rewrite iteration_posts, iteration_failed_count, iteration_results in IH.
    rewrite items_of_app, length_app in IH.
    rewrite Hp, Hf in IH. lia.
Qed.

(** What the surrounding function adds to the state of the loop. *)
Lemma classify_alpaca_dataset_state (dataset : list Row) (w : World) :
  let st := batch_loop 0 dataset (initial_state w) in
  let st' := snd (classify_alpaca_dataset dataset w) in
  results st' = results st /\ failed_count st' = failed_count st /\
  world st' = world st /\ posts (events st') = posts (events st).
Proof.
  unfold classify_alpaca_dataset. cbv zeta. cbn [results events world failed_count].
  destruct (group_items _ _) as [d|]; cbn [snd results events world failed_count];
    repeat split; rewrite !posts_app; cbn [posts flat_map app];
    rewrite ?posts_category_dumps, ?app_nil_r; reflexivity.
Qed.

(** X2.  A run over [N] rows sends at least one and at most three
    requests per row, [N + 2 * failed_count] at the least since every
    counted failure took three; and every counted failure is a record
    labelled ["other"], so [failed_count] is at most the number of such
    records and at most [N]. *)
Theorem requests_and_failures_bounds (dataset : list Row) (w : World) :
  let st := snd (classify_alpaca_dataset dataset w) in
  length dataset + 2 * failed_count st <= length (posts (events st)) /\
  length (posts (events st)) <= 3 * length dataset /\
  failed_count st <= length (items_of other (results st)) /\
  length (items_of other (results st)) <= length dataset.
Proof.
  cbv zeta.
  destruct (classify_alpaca_dataset_state dataset w) as (Hr & Hf & _ & Hp).
  rewrite Hr, Hf, Hp.
  pose proof (batch_loop_accounting dataset 0 (initial_state w)) as H.
  cbv zeta in H. cbn [initial_state events results failed_count posts flat_map
                      items_of filter length] in H.
  destruct (classify_alpaca_dataset_spec dataset w) as (rs & ns & _ & Hrs & Hrows & _).
  rewrite Hr in Hrs. rewrite Hrs.
  assert (Hlen : length rs = length dataset)
    by (rewrite <- Hrows; now rewrite length_map).
  rewrite Hrs in H.
  pose proof (filter_length_le (has_category other) rs) as Hle.
  unfold items_of in *. lia.
Qed.

End Accounting.

(* ================================================================== *)
(** * Runs against an endpoint that always answers, or never does *)
(* ================================================================== *)

Lemma items_of_all_other (cat : str) (rows : list Row) :
  items_of cat (map (fun row => result_item row (Some other)) rows)
  = if str_eqb other cat
    then map (fun row => result_item row (Some other)) rows
    else [].
Proof.
  unfold items_of. induction rows as [|row rows IH]; cbn [map filter].
  - now destruct (str_eqb other cat).
  - unfold has_category at 1. cbn [category result_item]. rewrite IH.
    now destruct (str_eqb other cat).
Qed.

Section EndpointRegimes.
Context {U : UnicodeTables} {World : Type} {E : Endpoint World}.

Lemma retry_always_replies (example : Row) (st : State World) :
  always_replies ->
  events (snd (retry example st)) = events st ++ [Post (dataset_request example 0)] /\
  failed_count (snd (retry example st)) = failed_count st.
Proof.
  intros Hup.
  destruct (Hup (dataset_request example 0) (world st)) as [raw Hraw].
  assert (Hs : succeeds_on example (world st) 1 raw).
  { unfold succeeds_on. cbn [seq answers repeat Nat.sub app].
    destruct (http_post (dataset_request example 0) (world st)) as [o w1].
    cbn [fst] in Hraw. now subst o. }
  destruct (@retry_succeeds U World E example st 1 raw) as (_ & He & _ & Hf);
    [lia | exact Hs |].
  split; [exact He | exact Hf].
Qed.

Lemma batch_loop_always_replies (examples : list Row) :
  always_replies ->
  forall (i : nat) (st : State World),
    posts (events (batch_loop i examples st))
      = posts (events st) ++ map (fun row => dataset_request row 0) examples /\
    failed_count (batch_loop i examples st) = failed_count st.
Proof.
  intros Hup. induction examples as [|example rest IH]; intros i st;
    cbn [batch_loop map].
  - now rewrite app_nil_r.
  - destruct (IH (S i) (iteration i example st)) as [Hp Hf].
    destruct (retry_always_replies example st Hup) as [He Hf1].
    rewrite Hp, Hf, iteration_posts, iteration_failed_count, He, Hf1, posts_app.
    cbn [posts flat_map app]. now rewrite <- app_assoc.
Qed.

Lemma fails_throughout_always_raises (example : Row) (w : World) :
  always_raises -> fails_throughout example w.
Proof.
  intros Hdown. unfold fails_throughout, max_retries.
  cbn [seq answers repeat].
  pose proof (Hdown (dataset_request example 0) w) as H1.
  destruct (http_post (dataset_request example 0) w) as [o1 w1].
  pose proof (Hdown (dataset_request example 1) w1) as H2.
  destruct (http_post (dataset_request example 1) w1) as [o2 w2].
  pose proof (Hdown (dataset_request example 2) w2) as H3.
  destruct (http_post (dataset_request example 2) w2) as [o3 w3].
  cbn [fst] in *. now subst.
Qed.

Lemma batch_loop_always_raises (examples : list Row) :
  always_raises ->
  forall (i : nat) (st : State World),
    results (batch_loop i examples st)
      = results st ++ map (fun row => result_item row (Some other)) examples /\
    failed_count (batch_loop i examples st) = failed_count st + length examples /\
    posts (events (batch_loop i examples st))
      = posts (events st)
          ++ flat_map (fun row => map (dataset_request row) [0; 1; 2]) examples.
Proof.
  intros Hdown. induction examples as [|example rest IH]; intros i st;
    cbn [batch_loop map flat_map length].
  - rewrite !app_nil_r. repeat split. lia.
  - destruct (IH (S i) (iteration i example st)) as (Hr & Hf & Hp).
    destruct (@retry_fails U World E example st
                (fails_throughout_always_raises example (world st) Hdown))
      as (Hc & He & _ & Hf1).
    rewrite Hr, Hf, Hp, iteration_results, iteration_posts,
      iteration_failed_count, Hc, He, Hf1, posts_app, posts_attempts_trace.
    rewrite <- !app_assoc. cbn [app seq]. repeat split. lia.
Qed.

(** X3.  Against an endpoint that answers every request, a run sends
    exactly one request per row, in the order of the dataset and each
    with the timeout of a first attempt, and counts no failure. *)
Theorem one_request_per_row_when_endpoint_replies (dataset : list Row) (w : World) :
  always_replies ->
  let st := snd (classify_alpaca_dataset dataset w) in
  posts (events st) = map (fun row => dataset_request row 0) dataset /\
  map timeout (posts (events st)) = repeat 60%N (length dataset) /\
  failed_count st = 0.
Proof.
  intros Hup. cbv zeta.
  destruct (classify_alpaca_dataset_state dataset w) as (_ & Hf & _ & Hp).
  destruct (batch_loop_always_replies dataset Hup 0 (initial_state w)) as [Hp' Hf'].
  rewrite Hp, Hf, Hp', Hf'. cbn [initial_state events failed_count posts flat_map app].
  repeat split. rewrite map_map. cbn [dataset_request timeout].
  clear. induction dataset as [|row rest IH]; cbn [map length repeat];
    [reflexivity | now rewrite IH].
Qed.

(** X4.  Against an endpoint that fails every request, a run still
    returns: every row comes back labelled ["other"], each row took the
    three requests, [failed_count] is the number of rows, and, the
    dataset not being empty, the only category file written is that of
    ["other"], holding all the records. *)
Theorem all_other_when_endpoint_raises (dataset : list Row) (w : World) :
  always_raises ->
  let run := classify_alpaca_dataset dataset w in
  let rs := map (fun row => result_item row (Some other)) dataset in
  fst run = Returned rs /\
  failed_count (snd run) = length dataset /\
  posts (events (snd run))
    = flat_map (fun row => map (dataset_request row) [0; 1; 2]) dataset /\
  (dataset <> [] ->
   exists before,
     events (snd run)
       = before ++ [Dump final_file rs; Dump (category_file other) rs] /\
     dumps before
       = map (fun j => (checkpoint_file (500 * j), firstn (500 * j) rs))
             (seq 1 (length dataset / 500))).
Proof.
  intros Hdown. cbv zeta.
  destruct (classify_alpaca_dataset_state dataset w) as (Hr & Hf & _ & Hp).
  destruct (batch_loop_always_raises dataset Hdown 0 (initial_state w))
    as (Hr' & Hf' & Hp').
  cbn [initial_state events results failed_count posts flat_map app] in Hr', Hf', Hp'.
  destruct (classify_alpaca_dataset_spec dataset w)
    as (rs & ns & Hret & Hrs & _ & _ & Hlen & _ & _ & He).
  rewrite Hr, Hr' in Hrs. subst rs.
  split; [exact Hret|]. split; [now rewrite Hf, Hf'|].
  split; [now rewrite Hp, Hp'|].
  intros Hne. exists (batch_trace 0 dataset ns
                        (map (fun row => result_item row (Some other)) dataset)).
  split.
  - rewrite He. do 2 f_equal.
    rewrite (filter_ext _ (fun cat => str_eqb other cat)).
    + replace (filter (fun cat => str_eqb other cat) CATEGORIES) with [other]
        by (vm_compute; reflexivity).
      cbn [map]. rewrite items_of_all_other, str_eqb_refl. reflexivity.
    + intros cat. rewrite items_of_all_other.
      destruct dataset as [|row rest]; [congruence|].
      now destruct (str_eqb other cat).
  - now rewrite dumps_batch_trace, multiples_of_500, map_map by exact Hlen.
Qed.

End EndpointRegimes.

(* ================================================================== *)
(** * [category_counts] *)
(* ================================================================== *)

Lemma label_eqb_eq (a b : option str) : label_eqb a b = true <-> a = b.
Proof.
  destruct a as [x|], b as [y|]; cbn; try (split; congruence).
  rewrite str_eqb_eq. split; congruence.
Qed.

Lemma label_eqb_refl (a : option str) : label_eqb a a = true.
Proof. now apply label_eqb_eq. Qed.

Lemma label_eqb_neq (a b : option str) : a <> b -> label_eqb a b = false.
Proof.
  intros H. destruct (label_eqb a b) eqn:Heq; [|reflexivity].
  apply label_eqb_eq in Heq. contradiction.
Qed.

Lemma label_eqb_sym (a b : option str) : label_eqb a b = label_eqb b a.
Proof.
  destruct (label_eqb b a) eqn:H.
  - apply label_eqb_eq in H. subst. apply label_eqb_refl.
  - apply label_eqb_neq. intros ->. now rewrite label_eqb_refl in H.
Qed.

Lemma with_label_items_of (cat : str) (data : list Item) :
  with_label (Some cat) data = items_of cat data.
Proof.
  unfold with_label, items_of. apply filter_ext. intros item.
  rewrite label_eqb_sym. unfold has_category, label_eqb.
  now destruct (category item).
Qed.

Lemma counter_get_incr (counts : Counter) (key k : option str) :
  counter_get (counter_incr counts key) k
  = counter_get counts k + (if label_eqb k key then 1 else 0).
Proof.
  induction counts as [|[k0 n] r IH]; cbn [counter_incr counter_get].
  - destruct (label_eqb k key); lia.
  - destruct (label_eqb key k0) eqn:Hk0; cbn [counter_get].
    + apply label_eqb_eq in Hk0. subst k0.
      destruct (label_eqb k key); lia.
    + destruct (label_eqb k k0) eqn:Hkk0; [|exact IH].
      apply label_eqb_eq in Hkk0. subst k0.
      rewrite label_eqb_sym, Hk0. lia.
Qed.

Lemma counter_total_incr (counts : Counter) (key : option str) :
  counter_total (counter_incr counts key) = counter_total counts + 1.
Proof.
  unfold counter_total.
  induction counts as [|[k0 n] r IH]; cbn [counter_incr].
  - reflexivity.
  - destruct (label_eqb key k0); simpl; lia.
Qed.

Lemma counter_keys_incr (counts : Counter) (key : option str) :
  map fst (counter_incr counts key)
  = if existsb (label_eqb key) (map fst counts)
    then map fst counts else map fst counts ++ [key].
Proof.
  induction counts as [|[k0 n] r IH]; cbn [counter_incr map fst existsb app].
  - reflexivity.
  - destruct (label_eqb key k0); cbn [map fst orb]; [reflexivity|].
    rewrite IH. now destruct (existsb (label_eqb key) (map fst r)).
Qed.

Lemma existsb_label_In (key : option str) (keys : list (option str)) :
  existsb (label_eqb key) keys = true <-> In key keys.
Proof.
  rewrite existsb_exists. split.
  - intros (k & Hk & Heq). apply label_eqb_eq in Heq. now subst.
  - intros H. exists key. split; [exact H | apply label_eqb_refl].
Qed.

Lemma counter_keys_NoDup (counts : Counter) (key : option str) :
  NoDup (map fst counts) -> NoDup (map fst (counter_incr counts key)).
Proof.
  intros Hnd. rewrite counter_keys_incr.
  destruct (existsb (label_eqb key) (map fst counts)) eqn:Hin; [exact Hnd|].
  apply NoDup_app; [exact Hnd | repeat constructor; intros [] |].
  intros a Ha [<- | []].
  apply (proj2 (existsb_label_In key (map fst counts))) in Ha. congruence.
Qed.

Lemma filter_none (A : Type) (f : A -> bool) (l : list A) :
  (forall x, In x l -> f x = false) -> filter f l = [].
Proof.
  induction l as [|x l IH]; cbn [filter]; intros H; [reflexivity|].
  rewrite (H x) by now left. apply IH. intros y Hy. apply H. now right.
Qed.

Section CategoryCountsLemmas.
Context {U : UnicodeTables} {World : Type} {E : Endpoint World}.

Lemma counted_loop_state (examples : list Row) :
  forall (i : nat) (st : State World) (counts : Counter),
    fst (counted_loop i examples st counts) = batch_loop i examples st.
Proof.
  induction examples as [|example rest IH]; intros i st counts;
    cbn [counted_loop batch_loop]; [reflexivity | apply IH].
Qed.

Lemma counted_loop_invariant (examples : list Row) :
  forall (i : nat) (st : State World) (counts : Counter),
    (forall k, counter_get counts k = length (with_label k (results st))) ->
    counter_total counts = length (results st) ->
    NoDup (map fst counts) ->
    let out := counted_loop i examples st counts in
    (forall k, counter_get (snd out) k = length (with_label k (results (fst out)))) /\
    counter_total (snd out) = length (results (fst out)) /\
    NoDup (map fst (snd out)).
Proof.
  induction examples as [|example rest IH]; intros i st counts Hget Htot Hnd;
    cbn [counted_loop].
  - cbv zeta. cbn [fst snd]. now repeat split.
  - apply IH.
    + intros k. rewrite counter_get_incr, Hget, iteration_results.
      unfold with_label. rewrite filter_app, length_app. cbn [filter category result_item].
      destruct (label_eqb k (fst (retry example st))); reflexivity.
    + rewrite counter_total_incr, Htot, iteration_results, length_app.
      reflexivity.
    + now apply counter_keys_NoDup.
Qed.

(** X5.  The counter kept beside the results agrees with them at the end
    of the loop: for every category its count is the number of results
    with that label, nothing is counted under a missing label, the counts
    add up to the number of rows, and no label has two entries. *)
Theorem category_counts_match_results (dataset : list Row) (w : World) :
  let out := counted_loop 0 dataset (initial_state w) [] in
  let rs := results (snd (classify_alpaca_dataset dataset w)) in
  results (fst out) = rs /\
  (forall cat, counter_get (snd out) (Some cat) = length (items_of cat rs)) /\
  counter_get (snd out) None = 0 /\
  counter_total (snd out) = length dataset /\
  NoDup (map fst (snd out)).
Proof.
  cbv zeta.
  destruct (@counted_loop_invariant dataset 0 (initial_state w) [])
    as (Hget & Htot & Hnd); try reflexivity; [constructor|].
  rewrite counted_loop_state in Hget, Htot |- *.
  destruct (classify_alpaca_dataset_state dataset w) as (Hr & _).
  destruct (classify_alpaca_dataset_spec dataset w)
    as (rs & ns & _ & Hrs & Hrows & Hlab & _).
  rewrite <- Hr, Hrs in *.
  split; [reflexivity|]. split; [|split; [|split]].
  - intros cat. now rewrite Hget, with_label_items_of.
  - rewrite Hget. unfold with_label.
    rewrite filter_none; [reflexivity|].
    intros item Hin. rewrite Forall_forall in Hlab.
    destruct (Hlab item Hin) as (c & Hc & _). now rewrite Hc.
  - rewrite Htot, <- Hrows. now rewrite length_map.
  - exact Hnd.
Qed.

End CategoryCountsLemmas.

(* ================================================================== *)
(** * [by_category] and [check_quality] *)
(* ================================================================== *)

Lemma bucket_mem_get (d : Buckets) (cat : option str) :
  bucket_mem d cat = match bucket_get d cat with Some _ => true | None => false end.
Proof.
  unfold bucket_mem. induction d as [|[k l] r IH]; cbn [existsb bucket_get fst].
  - reflexivity.
  - destruct (label_eqb cat k); [reflexivity | exact IH].
Qed.

Lemma bucket_mem_keys (d : Buckets) (cat : option str) :
  bucket_mem d cat = true <-> In cat (map fst d).
Proof.
  unfold bucket_mem. rewrite <- existsb_label_In.
  induction d as [|[k l] r IH]; cbn [existsb map fst]; [reflexivity|].
  destruct (label_eqb cat k); cbn [orb]; [reflexivity | exact IH].
Qed.

Lemma bucket_get_append (d : Buckets) (cat : option str) (item : Item)
    (key : option str) :
  bucket_get (bucket_append d cat item) key
  = if label_eqb key cat
    then option_map (fun l => l ++ [item]) (bucket_get d key)
    else bucket_get d key.
Proof.
  induction d as [|[k l] r IH]; cbn [bucket_append bucket_get].
  - now destruct (label_eqb key cat).
  - destruct (label_eqb cat k) eqn:Hck; cbn [bucket_get].
    + apply label_eqb_eq in Hck. subst k.
      destruct (label_eqb key cat); reflexivity.
    + destruct (label_eqb key k) eqn:Hkk; [|exact IH].
      apply label_eqb_eq in Hkk. subst k.
      now rewrite label_eqb_sym, Hck.
Qed.

Lemma bucket_get_snoc (d : Buckets) (cat : option str) (l : list Item)
    (key : option str) :
  bucket_get (d ++ [(cat, l)]) key
  = match bucket_get d key with
    | Some x => Some x
    | None => if label_eqb key cat then Some l else None
    end.
Proof.
  induction d as [|[k0 l0] r IH]; cbn [app bucket_get]; [reflexivity|].
  destruct (label_eqb key k0); [reflexivity | exact IH].
Qed.

Lemma bucket_append_keys (d : Buckets) (cat : option str) (item : Item) :
  map fst (bucket_append d cat item) = map fst d.
Proof.
  induction d as [|[k l] r IH]; cbn [bucket_append map fst]; [reflexivity|].
  destruct (label_eqb cat k); cbn [map fst]; [reflexivity | now rewrite IH].
Qed.

Lemma by_category_step_get (d : Buckets) (item : Item) (key : option str) :
  bucket_get (by_category_step d item) key
  = if label_eqb key (category item)
    then Some (match bucket_get d key with
               | Some l => l ++ [item]
               | None => [item]
               end)
    else bucket_get d key.
Proof.
  unfold by_category_step. cbv zeta. rewrite bucket_get_append.
  destruct (label_eqb key (category item)) eqn:Hk.
  - apply label_eqb_eq in Hk. subst key. rewrite bucket_mem_get.
    destruct (bucket_get d (category item)) eqn:Hg; cbn [negb].
    + now rewrite Hg.
    + now rewrite bucket_get_snoc, Hg, label_eqb_refl.
  - destruct (negb (bucket_mem d (category item))); [|reflexivity].
    rewrite bucket_get_snoc, Hk. now destruct (bucket_get d key).
Qed.

Lemma by_category_step_keys (d : Buckets) (item : Item) :
  NoDup (map fst d) -> NoDup (map fst (by_category_step d item)).
Proof.
  intros Hnd. unfold by_category_step. cbv zeta. rewrite bucket_append_keys.
  destruct (bucket_mem d (category item)) eqn:Hm; cbn [negb]; [exact Hnd|].
  rewrite map_app. cbn [map fst].
  apply NoDup_app; [exact Hnd | repeat constructor; intros [] |].
  intros a Ha [<- | []].
  apply bucket_mem_keys in Ha. congruence.
Qed.

Lemma buckets_size_append (d : Buckets) (cat : option str) (item : Item) :
  bucket_mem d cat = true ->
  buckets_size (bucket_append d cat item) = buckets_size d + 1.
Proof.
  unfold buckets_size, bucket_mem.
  induction d as [|[k l] r IH]; cbn [existsb bucket_append fst]; [discriminate|].
  destruct (label_eqb cat k); cbn [orb]; intros H.
  - simpl. rewrite length_app. simpl. lia.
  - simpl. rewrite (IH H). lia.
Qed.

Lemma by_category_step_size (d : Buckets) (item : Item) :
  buckets_size (by_category_step d item) = buckets_size d + 1.
Proof.
  unfold by_category_step. cbv zeta.
  destruct (bucket_mem d (category item)) eqn:Hm; cbn [negb].
  - now apply buckets_size_append.
  - rewrite buckets_size_append.
    + unfold buckets_size. rewrite map_app, list_sum_app. simpl. lia.
    + apply bucket_mem_keys. rewrite map_app. apply in_or_app. right. now left.
Qed.

Lemma group_by_category_snoc (data : list Item) (item : Item) :
  group_by_category (data ++ [item])
  = by_category_step (group_by_category data) item.
Proof. unfold group_by_category. now rewrite fold_left_app. Qed.

Lemma bucket_get_In (d : Buckets) (key : option str) (l : list Item) :
  NoDup (map fst d) -> In (key, l) d -> bucket_get d key = Some l.
Proof.
  induction d as [|[k0 l0] r IH]; cbn [map fst bucket_get In]; intros Hnd Hin.
  - destruct Hin.
  - inversion Hnd as [|? ? Hk0 Hnd']; subst.
    destruct Hin as [Heq | Hin].
    + injection Heq as -> ->. now rewrite label_eqb_refl.
    + destruct (label_eqb key k0) eqn:Hk.
      * apply label_eqb_eq in Hk. subst k0. exfalso. apply Hk0.
        apply in_map_iff. now exists (key, l).
      * now apply IH.
Qed.

Lemma group_by_category_get (data : list Item) (key : option str) :
  bucket_get (group_by_category data) key
  = match with_label key data with
    | [] => None
    | l => Some l
    end.
Proof.
  revert key. induction data as [|item data IH] using rev_ind; intros key;
    [reflexivity|].
  rewrite group_by_category_snoc, by_category_step_get, IH.
  unfold with_label. rewrite filter_app. cbn [filter].
  destruct (label_eqb key (category item)).
  - destruct (filter _ data); reflexivity.
  - now rewrite app_nil_r.
Qed.

Lemma group_by_category_NoDup (data : list Item) :
  NoDup (map fst (group_by_category data)).
Proof.
  induction data as [|item data IH] using rev_ind; [constructor|].
  rewrite group_by_category_snoc. now apply by_category_step_keys.
Qed.

(** X6.  The grouping the reporting functions make of the records they
    read: a label has a bucket exactly when some record carries it, the
    bucket then holds the records with that label in the order read, no
    label has two buckets, no bucket is empty, and the buckets together
    hold as many records as were read. *)
Theorem by_category_groups_by_label (data : list Item) :
  (forall key,
     bucket_get (group_by_category data) key
     = match with_label key data with
       | [] => None
       | l => Some l
       end) /\
  NoDup (map fst (group_by_category data)) /\
  (forall key l, In (key, l) (group_by_category data) ->
                 l = with_label key data /\ l <> []) /\
  buckets_size (group_by_category data) = length data.
Proof.
  split; [apply group_by_category_get|].
  split; [apply group_by_category_NoDup|]. split.
  - intros key l Hin.
    pose proof (@bucket_get_In _ key l (group_by_category_NoDup data) Hin) as Hg.
    rewrite group_by_category_get in Hg.
    destruct (with_label key data) eqn:Hw; [discriminate|].
    injection Hg as <-. split; [reflexivity | discriminate].
  - induction data as [|item data IH] using rev_ind; [reflexivity|].
    rewrite group_by_category_snoc, by_category_step_size, length_app, IH.
    reflexivity.
Qed.

Lemma by_category_groups_by_label_witness :
  let a := result_item (demo_row 1) (Some (lit "law")) in
  let b := result_item (demo_row 2) None in
  let c := result_item (demo_row 3) (Some (lit "law")) in
  In (Some (lit "law"), [a; c]) (group_by_category [a; b; c]) /\
  ([a; c] = with_label (Some (lit "law")) [a; b; c] /\ [a; c] <> []).
Proof.
  intros a b c.
  assert (Hin : In (Some (lit "law"), [a; c]) (group_by_category [a; b; c]))
    by (left; reflexivity).
  split; [exact Hin|].
  exact (proj1 (proj2 (proj2 (by_category_groups_by_label [a; b; c]))) _ _ Hin).
Defined.

(** The empty categories of [check_quality], read off the records. *)
Lemma empty_cats_filter (data : list Item) :
  filter (fun cat =>
            negb (bucket_mem (group_by_category data) (Some cat))
            || match bucket_get (group_by_category data) (Some cat) with
               | Some l => length l =? 0
               | None => false
               end) CATEGORIES
  = filter (fun cat => negb (nonempty (items_of cat data))) CATEGORIES.
Proof.
  apply filter_ext. intros cat.
  rewrite bucket_mem_get, group_by_category_get, with_label_items_of.
  now destruct (items_of cat data).
Qed.

(** X10.  [check_quality] raises [ZeroDivisionError] exactly when it is
    given no record; given some, it counts the records labelled
    ["other"] and lists, in the order of [CATEGORIES], the categories
    that no record carries. *)
Theorem check_quality_divides_by_the_count (data : list Item) :
  (check_quality data = ZeroDivisionError <-> data = []) /\
  (data <> [] ->
   check_quality data
   = Checked (length (items_of other data))
             (filter (fun cat => negb (nonempty (items_of cat data))) CATEGORIES)).
Proof.
  unfold check_quality. cbv zeta. rewrite empty_cats_filter.
  destruct data as [|item data]; cbn [length].
  - split; [tauto | congruence].
  - split; [split; discriminate | reflexivity].
Qed.

Lemma check_quality_divides_by_the_count_witness :
  let a := result_item (demo_row 1) (Some (lit "law")) in
  let b := result_item (demo_row 2) (Some (lit "other")) in
  check_quality [a; b]
  = Checked 1 (filter (fun cat => negb (str_eqb cat (lit "law") || str_eqb cat (lit "other")))
                      CATEGORIES).
Proof.
  intros a b.
  rewrite (proj2 (check_quality_divides_by_the_count [a; b])) by discriminate.
  vm_compute. reflexivity.
Defined.

(* ================================================================== *)
(** * The files of a run *)
(* ================================================================== *)

Lemma lit_inj (a b : string) : lit a = lit b -> a = b.
Proof.
  unfold lit. intros H.
  rewrite <- (string_of_list_ascii_of_string a), <- (string_of_list_ascii_of_string b).
  f_equal. revert H.
  generalize (list_ascii_of_string a) (list_ascii_of_string b).
  intros la. induction la as [|x la IH]; intros [|y lb] H; cbn [map] in H;
    try discriminate; [reflexivity|].
  injection H as Hxy Hrest. f_equal; [|now apply IH].
  now rewrite <- (ascii_N_embedding x), <- (ascii_N_embedding y), Hxy.
Qed.

Lemma py_str_of_nat_inj (m n : nat) : py_str_of_nat m = py_str_of_nat n -> m = n.
Proof.
  unfold py_str_of_nat. intros H. apply lit_inj in H.
  apply DecimalNat.Unsigned.to_uint_inj.
  pose proof (NilEmpty.usu (Nat.to_uint m)) as Hm.
  pose proof (NilEmpty.usu (Nat.to_uint n)) as Hn.
  rewrite H in Hm. congruence.
Qed.

Lemma checkpoint_file_inj (m n : nat) :
  checkpoint_file m = checkpoint_file n -> m = n.
Proof.
  unfold checkpoint_file. intros H.
  apply app_inv_head, app_inv_tail in H. now apply py_str_of_nat_inj.
Qed.

Lemma category_file_inj (a b : str) : category_file a = category_file b -> a = b.
Proof.
  unfold category_file. intros H. now apply app_inv_head, app_inv_tail in H.
Qed.

Lemma NoDup_map_injective (A B : Type) (f : A -> B) (l : list A) :
  (forall x y, f x = f y -> x = y) -> NoDup l -> NoDup (map f l).
Proof.
  intros Hinj. induction 1 as [|x l Hx Hnd IH]; cbn [map]; constructor.
  - rewrite in_map_iff. intros (y & Heq & Hy). apply Hinj in Heq. now subst.
  - exact IH.
Qed.

Lemma in_dumps (f : str) (d : list Item) (evs : list Event) :
  In (f, d) (dumps evs) <-> In (Dump f d) evs.
Proof.
  unfold dumps. rewrite in_flat_map. split.
  - intros (e & He & Hin). destruct e; cbn in Hin; try contradiction.
    destruct Hin as [Heq | []]. now injection Heq as -> ->.
  - intros H. exists (Dump f d). split; [exact H | now left].
Qed.

Lemma final_file_not_category (cat : str) :
  In cat CATEGORIES -> final_file <> category_file cat.
Proof.
  intros Hin Heq. pose proof category_files_distinct as Hnd.
  apply NoDup_cons_iff in Hnd. destruct Hnd as [Hnot _]. apply Hnot.
  rewrite Heq. now apply in_map.
Qed.

Lemma dumps_cons_dump (f : str) (d : list Item) (evs : list Event) :
  dumps (Dump f d :: evs) = (f, d) :: dumps evs.
Proof. reflexivity. Qed.

Lemma map_fst_pair (A B C : Type) (f : A -> B) (g : A -> C) (l : list A) :
  map fst (map (fun x => (f x, g x)) l) = map f l.
Proof. induction l as [|x l IH]; cbn [map fst]; [reflexivity | now rewrite IH]. Qed.

Section RunFiles.
Context {U : UnicodeTables} {World : Type} {E : Endpoint World}.

(** The files a run writes, in order. *)
Lemma run_dumps (dataset : list Row) (w : World) :
  let st := snd (classify_alpaca_dataset dataset w) in
  dumps (events st)
  = map (fun j => (checkpoint_file (500 * j), firstn (500 * j) (results st)))
        (seq 1 (length dataset / 500))
    ++ (final_file, results st)
    :: map (fun cat => (category_file cat, items_of cat (results st)))
           (filter (fun cat => nonempty (items_of cat (results st))) CATEGORIES).
Proof.
  cbv zeta.
  destruct (classify_alpaca_dataset_spec dataset w)
    as (rs & ns & _ & Hrs & _ & _ & Hlen & _ & _ & He).
  rewrite Hrs, He, dumps_app.
  rewrite dumps_batch_trace, multiples_of_500, map_map by exact Hlen.
  rewrite dumps_cons_dump, dumps_category_files. reflexivity.
Qed.

(** Their names. *)
Lemma run_file_names (dataset : list Row) (w : World) :
  let st := snd (classify_alpaca_dataset dataset w) in
  map fst (dumps (events st))
  = map checkpoint_file (map (fun j => 500 * j) (seq 1 (length dataset / 500)))
    ++ final_file
    :: map category_file
           (filter (fun cat => nonempty (items_of cat (results st))) CATEGORIES).
Proof.
  cbv zeta. pose proof (run_dumps dataset w) as H. cbv zeta in H.
  rewrite H, map_app, map_cons, !map_fst_pair, map_map. reflexivity.
Qed.

(** X7.  No file is written twice in a run: the names of the
    checkpoints, of the final file and of the category files written are
    pairwise distinct, so nothing a run has written is overwritten by it. *)
Theorem run_writes_each_file_once (dataset : list Row) (w : World) :
  NoDup (map fst (dumps (events (snd (classify_alpaca_dataset dataset w))))).
Proof.
  pose proof (run_file_names dataset w) as H. cbv zeta in H. rewrite H.
  apply NoDup_app.
  - apply NoDup_map_injective; [exact checkpoint_file_inj|].
    apply NoDup_map_injective; [intros; lia | apply seq_NoDup].
  - constructor.
    + rewrite in_map_iff. intros (cat & Heq & Hin).
      apply filter_In in Hin. destruct Hin as [Hin _].
      symmetry in Heq. exact (@final_file_not_category cat Hin Heq).
    + apply NoDup_map_injective; [exact category_file_inj|].
      apply NoDup_filter, CATEGORIES_NoDup.
  - intros f Hf Hrest. apply in_map_iff in Hf. destruct Hf as (m & Hm & _).
    apply in_inv in Hrest. destruct Hrest as [Hfin | Hcat].
    + rewrite <- Hm in Hfin. symmetry in Hfin.
      exact (@checkpoint_file_not_final m Hfin).
    + apply in_map_iff in Hcat. destruct Hcat as (cat & Heq & Hin).
      apply filter_In in Hin. destruct Hin as [Hin _].
      rewrite <- Hm in Heq. symmetry in Heq.
      exact (@checkpoint_file_not_category m cat Hin Heq).
Qed.


(** X9.  A run over fewer than 500 rows writes no checkpoint at all; a
    run over a positive multiple of 500 rows writes, as its last
    checkpoint, one that holds the same records as the final file. *)
Theorem checkpoints_at_the_edges (dataset : list Row) (w : World) :
  let st := snd (classify_alpaca_dataset dataset w) in
  (length dataset < 500 ->
   forall m d, ~ In (Dump (checkpoint_file m) d) (events st)) /\
  (0 < length dataset -> length dataset mod 500 = 0 ->
   In (Dump (checkpoint_file (length dataset)) (results st)) (events st)).
Proof.
  cbv zeta. pose proof (run_dumps dataset w) as Hd. cbv zeta in Hd.
  pose proof (run_file_names dataset w) as Hn. cbv zeta in Hn.
  destruct (classify_alpaca_dataset_spec dataset w)
    as (rs & ns & _ & Hrs & Hrows & _).
  assert (Hlen : length rs = length dataset)
    by (rewrite <- Hrows; now rewrite length_map).
  rewrite Hrs in *. split.
  - intros Hsmall m d Hin. apply in_dumps in Hin.
    apply (in_map fst) in Hin. unfold fst at 1 in Hin. rewrite Hn in Hin.
    rewrite Nat.div_small in Hin by exact Hsmall.
    change (map checkpoint_file (map (fun j => 500 * j) (seq 1 0))) with (@nil str) in Hin.
    rewrite app_nil_l in Hin.
    apply in_inv in Hin. destruct Hin as [Heq | Hin].
    + symmetry in Heq. exact (@checkpoint_file_not_final m Heq).
    + apply in_map_iff in Hin. destruct Hin as (cat & Heq & Hin).
      apply filter_In in Hin. destruct Hin as [Hin _].
      symmetry in Heq. exact (@checkpoint_file_not_category m cat Hin Heq).
  - intros Hpos Hmod. apply in_dumps. rewrite Hd. apply in_or_app. left.
    apply in_map_iff. exists (length dataset / 500).
    pose proof (Nat.div_mod_eq (length dataset) 500) as Hdm.
    rewrite Hmod, Nat.add_0_r in Hdm. rewrite <- Hdm. split.
    + f_equal. apply firstn_all2. lia.
    + apply in_seq. lia.
Qed.

End RunFiles.

(* ================================================================== *)
(** * [check_quality] on the results of a run *)
(* ================================================================== *)

Section QualityOfRun.
Context {U : UnicodeTables} {World : Type} {E : Endpoint World}.

Lemma failed_count_le_other (dataset : list Row) (w : World) :
  let st := snd (classify_alpaca_dataset dataset w) in
  failed_count st <= length (items_of other (results st)).
Proof.
  cbv zeta.
  destruct (classify_alpaca_dataset_state dataset w) as (Hr & Hf & _).
  rewrite Hr, Hf.
  pose proof (batch_loop_accounting dataset 0 (initial_state w)) as H.
  cbv zeta in H. cbn [initial_state results failed_count items_of filter length] in H.
  unfold items_of in *. lia.
Qed.

Lemma category_file_written (dataset : list Row) (w : World) (cat : str) :
  let st := snd (classify_alpaca_dataset dataset w) in
  In cat CATEGORIES ->
  (In (category_file cat) (map fst (dumps (events st)))
   <-> nonempty (items_of cat (results st)) = true).
Proof.
  cbv zeta. intros Hcat.
  pose proof (run_file_names dataset w) as Hn. cbv zeta in Hn. rewrite Hn.
  split.
  - intros Hin. apply in_app_or in Hin. destruct Hin as [Hin | Hin];
      [|apply in_inv in Hin; destruct Hin as [Heq | Hin]].
    + apply in_map_iff in Hin. destruct Hin as (m & Heq & _).
      destruct (@checkpoint_file_not_category m cat Hcat Heq).
    + destruct (@final_file_not_category cat Hcat Heq).
    + apply in_map_iff in Hin. destruct Hin as (cat' & Heq & Hin).
      apply category_file_inj in Heq. subst cat'.
      apply filter_In in Hin. exact (proj2 Hin).
  - intros Hne. apply in_or_app. right. apply in_cons. apply in_map.
    apply filter_In. split; assumption.
Qed.

(** X11.  Run on the records a run has produced, [check_quality] raises
    [ZeroDivisionError] exactly when the dataset was empty.  Otherwise
    its count of ["other"] records is at least the run's [failed_count]
    and at most the number of rows, and the categories it lists as empty
    are exactly those for which the run wrote no file. *)
Theorem check_quality_after_a_run (dataset : list Row) (w : World) :
  let st := snd (classify_alpaca_dataset dataset w) in
  (check_quality (results st) = ZeroDivisionError <-> dataset = []) /\
  (dataset <> [] ->
   exists other_count empty_cats,
     check_quality (results st) = Checked other_count empty_cats /\
     failed_count st <= other_count <= length dataset /\
     (forall cat,
        In cat empty_cats
        <-> In cat CATEGORIES /\
            ~ In (category_file cat) (map fst (dumps (events st))))).
Proof.
  cbv zeta.
  destruct (classify_alpaca_dataset_spec dataset w)
    as (rs & ns & _ & Hrs & Hrows & _).
  assert (Hlen : length rs = length dataset)
    by (rewrite <- Hrows; now rewrite length_map).
  pose proof (failed_count_le_other dataset w) as Hfail. cbv zeta in Hfail.
  pose proof (fun cat => @category_file_written dataset w cat) as Hfile.
  cbv zeta in Hfile. rewrite Hrs in *.
  unfold check_quality. cbv zeta. rewrite empty_cats_filter, Hlen.
  split.
  - destruct dataset; cbn [length]; split; intros H;
      discriminate || reflexivity || congruence.
  - intros Hne. destruct dataset as [|row rest]; [congruence|]. cbn [length].
    eexists _, _. split; [reflexivity|]. split.
    + split; [exact Hfail|].
      pose proof (filter_length_le (has_category other) rs) as Hle.
      cbn [length] in Hlen. unfold items_of. lia.
    + intros cat. rewrite filter_In. split.
      * intros [Hcat Hempty]. split; [exact Hcat|].
        rewrite (Hfile cat Hcat). now destruct (nonempty (items_of cat rs)).
      * intros [Hcat Hno]. split; [exact Hcat|].
        rewrite (Hfile cat Hcat) in Hno. now destruct (nonempty (items_of cat rs)).
Qed.

End QualityOfRun.

(* ================================================================== *)
(** * The [KeyError] of the grouping *)
(* ================================================================== *)

Lemma dict_append_None (d : Dict) (key : option str) (item : Item) :
  dict_append d key item = None
  <-> (forall c, key = Some c -> ~ In c (map fst d)).
Proof.
  induction d as [|[k items] d IH]; cbn [dict_append map fst In].
  - split; [intros _ c _ [] | reflexivity].
  - destruct key as [c0|].
    + destruct (str_eqb c0 k) eqn:Hk.
      * apply str_eqb_eq in Hk. subst k. split; [discriminate|].
        intros H. exfalso. apply (H c0 eq_refl). now left.
      * destruct (dict_append d (Some c0) item) eqn:Hd; cbn [option_map].
        -- split; [discriminate|]. intros H.
           assert (Hx : Some d0 = @None Dict); [|discriminate].
           apply IH. intros c Hc Hin. apply (H c Hc). now right.
        -- split; [|reflexivity]. intros _ c Hc [Heq | Hin].
           ++ injection Hc as ->. subst k. now rewrite str_eqb_refl in Hk.
           ++ now apply (proj1 IH eq_refl c Hc).
    + destruct (dict_append d None item) eqn:Hd; cbn [option_map].
      * exfalso. assert (Hx : Some d0 = @None Dict); [|discriminate].
        apply IH. discriminate.
      * split; [discriminate | reflexivity].
Qed.

Lemma dict_append_keys (d d' : Dict) (key : option str) (item : Item) :
  dict_append d key item = Some d' -> map fst d' = map fst d.
Proof.
  revert d'. induction d as [|[k items] d IH]; cbn [dict_append]; intros d' H.
  - discriminate.
  - destruct (match key with Some c => str_eqb c k | None => false end).
    + injection H as <-. reflexivity.
    + destruct (dict_append d key item) as [d1|]; [|discriminate].
      injection H as <-. cbn [map fst]. f_equal. now apply IH.
Qed.

Lemma group_items_None (items : list Item) :
  forall d : Dict,
    group_items items d = None
    <-> Exists (fun item => forall c, category item = Some c -> ~ In c (map fst d))
               items.
Proof.
  induction items as [|item rest IH]; intros d; cbn [group_items].
  - split; [discriminate | intros H; inversion H].
  - destruct (dict_append d (category item) item) as [d'|] eqn:Hd.
    + rewrite IH, (dict_append_keys _ _ _ Hd). split.
      * intros H. now apply Exists_cons_tl.
      * intros H. inversion H as [? ? Hhd | ? ? Htl]; subst; [|exact Htl].
        apply (proj2 (dict_append_None d (category item) item)) in Hhd. congruence.
    + split; [|reflexivity]. intros _. apply Exists_cons_hd.
      exact (proj1 (dict_append_None d (category item) item) Hd).
Qed.

(** X12.  The grouping into [categorized_data] raises [KeyError] exactly
    when some record carries a label that is not a member of
    [CATEGORIES] (a label outside the list, or none at all). *)
Theorem grouping_raises_on_foreign_label (items : list Item) :
  group_items items empty_partition = None
  <-> Exists (fun item => ~ labelled item) items.
Proof.
  rewrite group_items_None.
  assert (Hkeys : map fst empty_partition = CATEGORIES).
  { unfold empty_partition. rewrite map_map. apply map_id. }
  rewrite Hkeys. unfold labelled. split; intros H.
  - eapply Exists_impl; [|exact H]. cbv beta. intros item Hno (c & Hc & Hin).
    now apply (Hno c Hc).
  - eapply Exists_impl; [|exact H]. cbv beta. intros item Hno c Hc Hin.
    apply Hno. now exists c.
Qed.

Lemma grouping_raises_on_foreign_label_witness :
  group_items [result_item (demo_row 1) (Some (lit "law"));
               result_item (demo_row 2) (Some (lit "History"))]
              empty_partition = None.
Proof.
  apply (proj2 (grouping_raises_on_foreign_label _)).
  apply Exists_cons_tl, Exists_cons_hd.
  intros (c & Hc & Hin). cbn [category result_item] in Hc. injection Hc as <-.
  apply py_in_In in Hin. vm_compute in Hin. discriminate.
Defined.

(* ================================================================== *)
(** * Responses without a category, and [classify_instruction] *)
(* ================================================================== *)

Section NoToken.
Context {U : UnicodeTables} {World : Type} {E : Endpoint World}.

Lemma rstrip_spaces (ws : str) : forallb isspace ws = true -> rstrip ws = [].
Proof.
  intros Hws. unfold rstrip. rewrite lstrip_spaces; [reflexivity|].
  rewrite forallb_forall in *. intros x Hx. apply Hws. now apply in_rev.
Qed.

(** X13.  A response that holds no token besides the marker is
    normalised to the fallback: whitespace only (the empty response
    included), or the marker in any letter case with whitespace around
    it. *)
Theorem normalize_response_without_token (pre M post : str) :
  forallb isspace pre = true -> forallb isspace post = true ->
  M = [] \/ (forallb is_ascii M = true /\ map ascii_lower M = lit "category:") ->
  normalize_response (pre ++ M ++ post) = other.
Proof.
  intros Hpre Hpost [-> | [Ha HM]].
  - apply normalize_response_blank. cbn [app]. now rewrite forallb_app, Hpre, Hpost.
  - rewrite normalize_response_first_token.
    assert (Hne : M <> []) by (intros ->; discriminate).
    destruct (exists_last Hne) as (M' & z & Hlast).
    destruct M as [|m M0]; [congruence|].
    assert (Hm : isspace m = false).
    { apply nonspace_before_lower.
      - cbn [forallb] in Ha. now apply andb_prop in Ha.
      - cbn [map] in HM. injection HM as Hm _. rewrite Hm. vm_compute. reflexivity. }
    assert (Hz : isspace z = false).
    { apply nonspace_before_lower.
      - rewrite forallb_forall in Ha. apply Ha. rewrite Hlast.
        apply in_or_app. right. now left.
      - rewrite Hlast, map_app in HM. cbn [map] in HM.
        change (lit "category:") with (lit "category" ++ [58%N]) in HM.
        apply app_inj_tail in HM. destruct HM as [_ Hz]. rewrite Hz.
        vm_compute. reflexivity. }
    rewrite (@py_strip_core U pre (m :: M0) post m z M0 M') by
      (assumption || reflexivity).
    rewrite (rstrip_spaces _ Hpost), app_nil_r.
    unfold py_lower.
    rewrite <- (app_nil_r (m :: M0)) at 2.
    rewrite lower_from_ascii by exact Ha. rewrite HM. cbn [lower_from].
    vm_compute. reflexivity.
Qed.

(** X14.  [classify_instruction] never raises and never retries: it
    sends the one request, with timeout 30, and returns a member of
    [CATEGORIES] whatever happens to that request, the normalisation of
    the reply if there is one and the fallback if the request raises. *)
Theorem classify_instruction_answers_once
    (instruction input_text model : str) (w : World) :
  let req := {| url := generate_url; model := model;
                prompt := instruction_prompt instruction input_text;
                stream := false; num_predict := 10; timeout := 30 |} in
  let out := classify_instruction instruction input_text model w in
  In (fst out) CATEGORIES /\
  snd out = snd (http_post req w) /\
  (fst (http_post req w) = Raised -> fst out = other) /\
  (forall raw, fst (http_post req w) = Replied raw ->
               fst out = normalize_response raw).
Proof.
  cbv zeta. unfold classify_instruction.
  destruct (http_post _ w) as [o w'] eqn:Hpost. cbn [fst snd].
  destruct o as [raw|]; cbn [fst snd].
  - split; [apply normalize_response_in|]. split; [reflexivity|].
    split; [discriminate|]. intros raw' Heq. now injection Heq as ->.
  - split; [apply other_in_CATEGORIES|]. split; [reflexivity|].
    split; [reflexivity | discriminate].
Qed.

End NoToken.

(* ================================================================== *)
(** * Further concrete runs *)
(* ================================================================== *)

Lemma normalize_response_without_token_witness :
  @normalize_response plain_tables (lit " " ++ lit "Category:" ++ lit "  ") = other.
Proof.
  apply (@normalize_response_without_token plain_tables).
  - reflexivity.
  - reflexivity.
  - right. split; reflexivity.
Defined.

Lemma classify_instruction_answers_once_witness :
  fst (@classify_instruction plain_tables Script scripted
         (lit "Name a prime") [] (lit "llama3.2:3b") (demo_world [Raised]))
  = other.
Proof.
  apply (proj1 (proj2 (proj2
    (@classify_instruction_answers_once plain_tables Script scripted
       (lit "Name a prime") [] (lit "llama3.2:3b") (demo_world [Raised]))))).
  reflexivity.
Defined.

Lemma one_request_per_row_when_endpoint_replies_witness :
  let st := snd (@classify_alpaca_dataset plain_tables unit (steady (lit "Law"))
                   [demo_row 1; demo_row 2] tt) in
  map timeout (posts (events st)) = [60; 60]%N /\ failed_count st = 0.
Proof.
  intros st.
  destruct (@one_request_per_row_when_endpoint_replies plain_tables unit
              (steady (lit "Law")) [demo_row 1; demo_row 2] tt) as (_ & Ht & Hf).
  - intros r w. exists (lit "Law"). reflexivity.
  - split; [exact Ht | exact Hf].
Defined.

Lemma all_other_when_endpoint_raises_witness :
  let run := @classify_alpaca_dataset plain_tables unit dead
               [demo_row 1; demo_row 2] tt in
  fst run = Returned [result_item (demo_row 1) (Some other);
                      result_item (demo_row 2) (Some other)] /\
  failed_count (snd run) = 2.
Proof.
  intros run.
  destruct (@all_other_when_endpoint_raises plain_tables unit dead
              [demo_row 1; demo_row 2] tt) as (Hret & Hf & _).
  - intros r w. reflexivity.
  - split; [exact Hret | exact Hf].
Defined.


Lemma checkpoints_at_the_edges_witness :
  let dataset := map demo_row (seq 0 500) in
  let st := snd (@classify_alpaca_dataset plain_tables unit dead dataset tt) in
  In (Dump (checkpoint_file (length dataset)) (results st)) (events st).
Proof.
  intros dataset st.
  apply (proj2 (@checkpoints_at_the_edges plain_tables unit dead dataset tt)).
  - vm_compute. lia.
  - vm_compute. reflexivity.
Defined.

Lemma check_quality_after_a_run_witness :
  check_quality
    (results (snd (@classify_alpaca_dataset plain_tables unit dead [] tt)))
  = ZeroDivisionError.
Proof.
  apply (proj2 (proj1 (@check_quality_after_a_run plain_tables unit dead [] tt))).
  reflexivity.
Defined.
